(** * Subkey trust lifecycle of [src/key/subkey.js]

    A shallow embedding of the [SubKey] class: the read paths [isRevoked],
    [verify] and [getExpirationTime], and the write paths [update] and
    [revoke].

    Conventions.
    - A [Date] is the integer [valueOf] gives, [Infinity] is [Never], [null]
      is [None].
    - A default argument [date = new Date()] is an explicit argument; where a
      helper reads the clock itself, the reading is the argument [now].
    - Every [await] runs to completion before the next statement: one call is
      one sequential run.
    - A method that writes to [this] is a function from the state of [this]
      to its new state and a result; a [throw] is the [inl] of the result.

    The class imports [./helper], [../enums] and the packet classes.  Those
    modules are not part of the sources at hand; what [subkey.js] needs of
    them is either an interface ([SignatureService]) or a definition that
    follows the written specification, each marked as such. *)

From Stdlib Require Import ZArith Lia String.
From stdpp Require Import base option list numbers.

Local Open Scope Z_scope.

(** ** Data model *)

(** [enums.packet]: the variant tag of a key packet. *)
Inductive PacketTag :=
  | publicKey | secretKey | publicSubkey | secretSubkey.

(** [enums.signature]: the two types [subkey.js] names, and any other one. *)
Inductive SignatureType :=
  | subkeyBinding | subkeyRevocation | otherSignature (code : Z).

(** [enums.reasonForRevocation]. *)
Inductive ReasonFlag :=
  | noReason | keySuperseded | keyCompromised | keyRetired.

#[global] Instance PacketTag_eq_dec : EqDecision PacketTag.
Proof. solve_decision. Defined.
#[global] Instance SignatureType_eq_dec : EqDecision SignatureType.
Proof. solve_decision. Defined.
#[global] Instance ReasonFlag_eq_dec : EqDecision ReasonFlag.
Proof. solve_decision. Defined.

(** What a caller may pass as [flag]: a member of [enums.reasonForRevocation]
    (by name or by code), or any other value. *)
Inductive FlagValue :=
  | enumFlag (f : ReasonFlag)
  | otherValue (raw : Z).

#[global] Instance FlagValue_eq_dec : EqDecision FlagValue.
Proof. solve_decision. Defined.

(** What a JS expiration query answers: a [Date], or [Infinity]. *)
Inductive ExpTime :=
  | Finite (t : Z)
  | Never.

#[global] Instance ExpTime_eq_dec : EqDecision ExpTime.
Proof. solve_decision. Defined.

(** JS [a < b] on [Date | Infinity]: both operands go through [valueOf]. *)
Definition exp_ltb (a b : ExpTime) : bool :=
  match a, b with
  | Finite x, Finite y => x <? y
  | Finite _, Never => true
  | Never, _ => false
  end.

(** The order of the specification: [Never] is above every finite date. *)
Definition exp_le (a b : ExpTime) : Prop :=
  match a, b with
  | _, Never => True
  | Never, Finite _ => False
  | Finite x, Finite y => x ≤ y
  end.

(** A key packet: the handle the subkey owns.  Key identifier and fingerprint
    are the integers their bytes spell. *)
Record KeyPacket := {
  tag : PacketTag;
  keyId : Z;
  fingerprint : Z;
  keyCreated : Z;
  decrypted : bool
}.

#[global] Instance KeyPacket_eq_dec : EqDecision KeyPacket.
Proof. solve_decision. Defined.

(** A signature packet, with the fields [subkey.js] and the specification of
    its helpers read. *)
Record Signature := {
  signatureType : SignatureType;
  issuerKeyId : Z;
  created : Z;
  signatureExpiration : ExpTime;   (* what [getExpirationTime()] answers *)
  keyValidity : option Z;          (* key-level validity period, if asserted *)
  verified : bool;
  revoked : bool;
  signatureData : Z
}.

#[global] Instance Signature_eq_dec : EqDecision Signature.
Proof. solve_decision. Defined.

(** [{ key: primaryKey, bind: this.keyPacket }] *)
Record DataToVerify := {
  key : KeyPacket;
  bind : KeyPacket
}.

(** The object literal [revoke] hands to [helper.createSignaturePacket]. *)
Record SignatureProperties := {
  prop_signatureType : SignatureType;
  prop_reasonForRevocationFlag : Z;
  prop_reasonForRevocationString : string
}.

(** The optional argument [{ flag, string }] of [revoke]. *)
Record ReasonForRevocation := {
  flag : option FlagValue;
  reasonString : option string
}.

(** [class SubKey]: the constructor sets exactly these three fields. *)
Record SubKey := {
  keyPacket : KeyPacket;
  bindingSignatures : list Signature;
  revocationSignatures : list Signature
}.

Definition new_SubKey (subKeyPacket : KeyPacket) : SubKey :=
  {| keyPacket := subKeyPacket; bindingSignatures := []; revocationSignatures := [] |}.

Definition set_keyPacket (p : KeyPacket) (s : SubKey) : SubKey :=
  {| keyPacket := p;
     bindingSignatures := bindingSignatures s;
     revocationSignatures := revocationSignatures s |}.

Definition set_bindingSignatures (l : list Signature) (s : SubKey) : SubKey :=
  {| keyPacket := keyPacket s;
     bindingSignatures := l;
     revocationSignatures := revocationSignatures s |}.

Definition set_revocationSignatures (l : list Signature) (s : SubKey) : SubKey :=
  {| keyPacket := keyPacket s;
     bindingSignatures := bindingSignatures s;
     revocationSignatures := l |}.

(** The property name [mergeSignatures] is called with. *)
Inductive Attr := bindingSignaturesAttr | revocationSignaturesAttr.

Definition getAttr (a : Attr) (s : SubKey) : list Signature :=
  match a with
  | bindingSignaturesAttr => bindingSignatures s
  | revocationSignaturesAttr => revocationSignatures s
  end.

Definition setAttr (a : Attr) (l : list Signature) (s : SubKey) : SubKey :=
  match a with
  | bindingSignaturesAttr => set_bindingSignatures l s
  | revocationSignaturesAttr => set_revocationSignatures l s
  end.

(** ** Errors *)

(** The failures of the specification's taxonomy.  [verify] throws
    ['Subkey is revoked'] and ['Subkey is expired'], [update] throws
    ['SubKey update method: fingerprints of subkeys not equal'];
    [NoValidBindingSignature] and [VerificationFailure] come from the helper
    and from the signature packet, [InvalidEnumValue] from [enums.write]. *)
Inductive Error :=
  | FingerprintMismatch
  | NoValidBindingSignature
  | Revoked
  | Expired
  | VerificationFailure
  | InvalidEnumValue.

#[global] Instance Error_eq_dec : EqDecision Error.
Proof. solve_decision. Defined.

(** A call that returns or throws. *)
Definition result (A : Type) : Type := Error + A.

(** ** Collaborators *)

(** The packet-level services [subkey.js] calls and does not implement:
    the cryptographic check behind [signature.verify], the date test
    [signature.isExpired], the signer behind [helper.createSignaturePacket]
    and the code table [enums.reasonForRevocation]. *)
Class SignatureService := {
  verifies : Signature → KeyPacket → SignatureType → DataToVerify → bool;
  isExpired : Signature → Z → bool;
  createSignaturePacket :
    DataToVerify → KeyPacket → SignatureProperties → Z → result Signature;
  reasonForRevocationCode : ReasonFlag → Z
}.

(** Modelled from the spec: [enums.write(enums.reasonForRevocation, flag)] of
    the enums module, which is not among the sources.  Section 6: the
    validation and normalization function of a closed set of codes; a member
    gives its code, any other value is refused. *)
Definition enums_write_reasonForRevocation {svc : SignatureService}
    (v : FlagValue) : result Z :=
  match v with
  | enumFlag f => inr (reasonForRevocationCode f)
  | otherValue _ => inl InvalidEnumValue
  end.

(** ** A method that mutates [this] and may throw *)

(** The state is the object the method mutates; a throw keeps the mutations
    made so far, as in JS. *)
Definition M (A : Type) : Type := SubKey → SubKey * result A.

Definition ret {A} (a : A) : M A := λ s, (s, inr a).
Definition throw {A} (e : Error) : M A := λ s, (s, inl e).
Definition bind_M {A B} (m : M A) (k : A → M B) : M B :=
  λ s, match m s with
       | (s', inr a) => k a s'
       | (s', inl e) => (s', inl e)
       end.
(** A call that leaves [this] alone. *)
Definition lift {A} (r : result A) : M A := λ s, (s, r).
Definition get : M SubKey := λ s, (s, inr s).
Definition put (s' : SubKey) : M unit := λ _, (s', inr tt).
(** [try { body } catch (e) { handler }] *)
Definition try_catch {A} (body : M A) (handler : Error → M A) : M A :=
  λ s, match body s with
       | (s', inr a) => (s', inr a)
       | (s', inl e) => handler e s'
       end.

Declare Scope method_scope.
Delimit Scope method_scope with method.
Notation "x <- m ;; k" := (bind_M m (λ x, k))
  (at level 100, m at next level, right associativity) : method_scope.
Notation "m ;;; k" := (bind_M m (λ _, k))
  (at level 100, right associativity) : method_scope.

(** ** [key/helper] *)

Module helper.
Section WithService.
Context {svc : SignatureService}.

(** Modelled from the spec: [signature.verify(key, type, data)] of the
    signature packet class, which is not among the sources.  It resolves, or
    fails with [VerificationFailure] on rejection. *)
Definition signature_verify (sig : Signature) (k : KeyPacket)
    (ty : SignatureType) (data : DataToVerify) : result unit :=
  if verifies sig k ty data then inr tt else inl VerificationFailure.

(** Modelled from the spec: the candidates [helper.getLatestValidSignature]
    selects among.  Section 4.2: of the expected type, verifying against the
    binding context with the primary key, not expired as of the date. *)
Definition isValidAsOf (primaryKey : KeyPacket) (ty : SignatureType)
    (data : DataToVerify) (date : Z) (sig : Signature) : bool :=
  bool_decide (signatureType sig = ty)
  && bool_decide (signature_verify sig primaryKey ty data = inr tt)
  && negb (isExpired sig date).

(** Modelled from the spec: one step of that selection, which keeps the later
    creation timestamp. *)
Definition laterOf (best : option Signature) (sig : Signature) : option Signature :=
  match best with
  | None => Some sig
  | Some b => if created b <? created sig then Some sig else Some b
  end.

(** Modelled from the spec: [helper.getLatestValidSignature], which is not
    among the sources.  Section 4.2: the signature with the latest creation
    timestamp among the valid candidates; fails when no candidate qualifies.
    The specification leaves ties open; here the first of the list wins. *)
Definition getLatestValidSignature (signatures : list Signature)
    (primaryKey : KeyPacket) (ty : SignatureType) (data : DataToVerify)
    (date : Z) : result Signature :=
  match foldl (λ best sig,
                 if isValidAsOf primaryKey ty data date sig
                 then laterOf best sig else best) None signatures with
  | Some sig => inr sig
  | None => inl NoValidBindingSignature
  end.

(** Modelled from the spec: [helper.isDataRevoked], which is not among the
    sources.  Section 4.3: revoked if any signature of the list is of the
    given type, verifies against the context with [key] (the primary key when
    [key] is absent) and was created at or before the date.  The signature
    under evaluation is received and takes no part in the test. *)
Definition isDataRevoked (primaryKey : KeyPacket) (ty : SignatureType)
    (data : DataToVerify) (revocations : list Signature)
    (signature : option Signature) (key : option KeyPacket) (date : Z) : bool :=
  let k := default primaryKey key in
  existsb (λ rev,
             bool_decide (signatureType rev = ty)
             && bool_decide (signature_verify rev k ty data = inr tt)
             && (created rev <=? date)) revocations.

(** Modelled from the spec: [helper.getExpirationTime], which is not among the
    sources.  Section 4.5: the key creation time plus the key-level validity
    period the binding signature asserts, [Never] when it asserts none. *)
Definition getExpirationTime (kp : KeyPacket) (sig : Signature) : ExpTime :=
  match keyValidity sig with
  | Some period => Finite (keyCreated kp + period)
  | None => Never
  end.

(** Modelled from the spec: [helper.isDataExpired], which is not among the
    sources.  Section 4.4, step 3: the date is at or past the effective
    expiration, the earlier of the key-level and the signature-level one. *)
Definition isDataExpired (kp : KeyPacket) (sig : Signature) (date : Z) : bool :=
  let keyExpiry := getExpirationTime kp sig in
  let sigExpiry := signatureExpiration sig in
  match (if exp_ltb keyExpiry sigExpiry then keyExpiry else sigExpiry) with
  | Finite t => t <=? date
  | Never => false
  end.

(** Modelled from the spec: [helper.mergeSignatures], which is not among the
    sources.  Section 4.6: each signature of the source list, in order, is
    put to the acceptance check and taken into the destination list when the
    check accepts it, dropped otherwise.  A signature the list already holds
    is not added again (the postcondition of 4.6: merging the same source
    again produces no further change).  The destination is the object the
    calling method runs on; the check runs against it as it is at that
    moment, and may itself write to it. *)
Fixpoint mergeList (source : list Signature) (attr : Attr)
    (checkFn : Signature → M bool) : M unit :=
  match source with
  | [] => ret tt
  | sourceSig :: rest =>
      (ok <- checkFn sourceSig ;;
       dest <- get ;;
       (if (ok : bool) && negb (bool_decide (sourceSig ∈ getAttr attr dest))
        then put (setAttr attr (getAttr attr dest ++ [sourceSig]) dest)
        else ret tt) ;;;
       mergeList rest attr checkFn)%method
  end.

(** Modelled from the spec: [helper.mergeSignatures(source, dest, attr,
    checkFn)], with [dest] the state: it merges the list [source[attr]]. *)
Definition mergeSignatures (source : SubKey) (attr : Attr)
    (checkFn : Signature → M bool) : M unit :=
  mergeList (getAttr attr source) attr checkFn.

End WithService.
End helper.

(** ** [class SubKey] *)

Section SubKeyMethods.
Context {svc : SignatureService}.

(** Modelled from the spec: [hasSameFingerprintAs] of the key packet classes,
    which are not among the sources.  Section 4.1: equality of the key
    material's fingerprint. *)
Definition KeyPacket_hasSameFingerprintAs (a b : KeyPacket) : bool :=
  bool_decide (fingerprint a = fingerprint b).

(** [hasSameFingerprintAs(other)]: [other.keyPacket || other] takes the
    packet of a subkey and a bare packet as it is. *)
Definition hasSameFingerprintAs (this : SubKey) (other : SubKey + KeyPacket) : bool :=
  KeyPacket_hasSameFingerprintAs (keyPacket this)
    match other with
    | inl subKey => keyPacket subKey
    | inr packet => packet
    end.

(** [isRevoked(primaryKey, signature, key, date)] *)
Definition isRevoked (this : SubKey) (primaryKey : KeyPacket)
    (signature : option Signature) (key : option KeyPacket) (date : Z) : bool :=
  helper.isDataRevoked primaryKey subkeyRevocation
    {| key := primaryKey; bind := keyPacket this |}
    (revocationSignatures this) signature key date.

(** [verify(primaryKey, date)]: returns nothing, or throws. *)
Definition verify (this : SubKey) (primaryKey : KeyPacket) (date : Z) : result unit :=
  let dataToVerify := {| key := primaryKey; bind := keyPacket this |} in
  match helper.getLatestValidSignature (bindingSignatures this) primaryKey
          subkeyBinding dataToVerify date with
  | inl e => inl e
  | inr bindingSignature =>
      if revoked bindingSignature
         || isRevoked this primaryKey (Some bindingSignature) None date
      then inl Revoked
      else if helper.isDataExpired (keyPacket this) bindingSignature date
      then inl Expired
      else inr tt
  end.

(** [getExpirationTime(primaryKey, date)]: [None] is the [null] of the
    [catch] branch. *)
Definition getExpirationTime (this : SubKey) (primaryKey : KeyPacket) (date : Z)
    : option ExpTime :=
  let dataToVerify := {| key := primaryKey; bind := keyPacket this |} in
  match helper.getLatestValidSignature (bindingSignatures this) primaryKey
          subkeyBinding dataToVerify date with
  | inl _ => None
  | inr bindingSignature =>
      let keyExpiry := helper.getExpirationTime (keyPacket this) bindingSignature in
      let sigExpiry := signatureExpiration bindingSignature in
      Some (if exp_ltb keyExpiry sigExpiry then keyExpiry else sigExpiry)
  end.

(** The acceptance check [update] gives [mergeSignatures] for binding
    signatures.  The [for] loop stops at the first local entry of the same
    issuer; [that] is the object being updated. *)
Definition bindingCheck (primaryKey : KeyPacket) (dataToVerify : DataToVerify)
    (srcBindSig : Signature) : M bool :=
  (that <- get ;;
   match list_find (λ l, issuerKeyId l = issuerKeyId srcBindSig)
           (bindingSignatures that) with
   | Some (i, l) =>
       (if created l <? created srcBindSig
        then put (set_bindingSignatures
                    (<[i:=srcBindSig]> (bindingSignatures that)) that)
        else ret tt) ;;;
       ret false
   | None =>
       try_catch
         ((if verified srcBindSig then ret tt
           else lift (helper.signature_verify srcBindSig primaryKey
                        subkeyBinding dataToVerify)) ;;;
          ret true)
         (λ _, ret false)
   end)%method.

(** The acceptance check for revocation signatures: the candidate alone, as of
    the current time [now] ([isDataRevoked] gets no date). *)
Definition revocationCheck (primaryKey : KeyPacket) (dataToVerify : DataToVerify)
    (now : Z) (srcRevSig : Signature) : M bool :=
  ret (helper.isDataRevoked primaryKey subkeyRevocation dataToVerify
         [srcRevSig] None None now).

(** [update(subKey, primaryKey)], run on [this] (the state); [subKey] is
    another object, which the method only reads. *)
Definition update (subKey : SubKey) (primaryKey : KeyPacket) (now : Z) : M unit :=
  (this <- get ;;
   if negb (hasSameFingerprintAs this (inl subKey))
   then throw FingerprintMismatch
   else
     ((if bool_decide (tag (keyPacket this) = publicSubkey)
          && bool_decide (tag (keyPacket subKey) = secretSubkey)
       then put (set_keyPacket (keyPacket subKey) this)
       else ret tt) ;;;
      that <- get ;;
      let dataToVerify := {| key := primaryKey; bind := keyPacket that |} in
      helper.mergeSignatures subKey bindingSignaturesAttr
        (bindingCheck primaryKey dataToVerify) ;;;
      helper.mergeSignatures subKey revocationSignaturesAttr
        (revocationCheck primaryKey dataToVerify now)))%method.

(** [revoke(primaryKey, { flag, string }, date)].  The first component is
    [this] when the call is over, the second the returned subkey.  [now] is
    the time at which the nested [update] runs.  The signer is called as
    [createSignaturePacket(dataToSign, null, primaryKey, properties, date)];
    its second argument is always [null] here and is left out.  The
    properties are built first, so [enums.write] sees the caller's flag, and
    may refuse it, before the signer is entered. *)
Definition revoke (this : SubKey) (primaryKey : KeyPacket)
    (reasonForRevocation : option ReasonForRevocation) (date now : Z)
    : SubKey * result SubKey :=
  let reason := default {| flag := None; reasonString := None |} reasonForRevocation in
  let reasonForRevocationFlag := default (enumFlag noReason) (flag reason) in
  let reasonForRevocationString := default EmptyString (reasonString reason) in
  let dataToSign := {| key := primaryKey; bind := keyPacket this |} in
  let subKey := new_SubKey (keyPacket this) in
  match enums_write_reasonForRevocation reasonForRevocationFlag with
  | inl e => (this, inl e)
  | inr code =>
      match createSignaturePacket dataToSign primaryKey
              {| prop_signatureType := subkeyRevocation;
                 prop_reasonForRevocationFlag := code;
                 prop_reasonForRevocationString := reasonForRevocationString |}
              date with
      | inl e => (this, inl e)
      | inr revocationSignature =>
          let subKey :=
            set_revocationSignatures
              (revocationSignatures subKey ++ [revocationSignature]) subKey in
          match update this primaryKey now subKey with
          | (subKey, inr _) => (this, inr subKey)
          | (_, inl e) => (this, inl e)
          end
      end
  end.

End SubKeyMethods.

(** ** The merge, read as functions on lists *)

Section MergeReading.
Context {svc : SignatureService}.

(** What the [try] block of [bindingCheck] decides. *)
Definition acceptsBinding (primaryKey : KeyPacket) (data : DataToVerify)
    (sig : Signature) : bool :=
  verified sig || verifies sig primaryKey subkeyBinding data.

(** What [revocationCheck] decides. *)
Definition acceptsRevocation (primaryKey : KeyPacket) (data : DataToVerify)
    (now : Z) (sig : Signature) : bool :=
  helper.isDataRevoked primaryKey subkeyRevocation data [sig] None None now.

(** One source binding signature against the local list [L]. *)
Definition bindStep (primaryKey : KeyPacket) (data : DataToVerify)
    (L : list Signature) (s : Signature) : list Signature :=
  match list_find (λ l, issuerKeyId l = issuerKeyId s) L with
  | Some (i, l) => if created l <? created s then <[i:=s]> L else L
  | None => if acceptsBinding primaryKey data s then L ++ [s] else L
  end.

(** One source revocation signature against the local list [R]. *)
Definition revStep (primaryKey : KeyPacket) (data : DataToVerify) (now : Z)
    (R : list Signature) (r : Signature) : list Signature :=
  if acceptsRevocation primaryKey data now r && negb (bool_decide (r ∈ R))
  then R ++ [r] else R.

(** The key packet [update] leaves in [this]. *)
Definition upgradedPacket (this subKey : SubKey) : KeyPacket :=
  if bool_decide (tag (keyPacket this) = publicSubkey)
     && bool_decide (tag (keyPacket subKey) = secretSubkey)
  then keyPacket subKey else keyPacket this.

(** The state a successful [update] leaves. *)
Definition merged (this subKey : SubKey) (primaryKey : KeyPacket) (now : Z) : SubKey :=
  let kp := upgradedPacket this subKey in
  let data := {| key := primaryKey; bind := kp |} in
  {| keyPacket := kp;
     bindingSignatures :=
       foldl (bindStep primaryKey data) (bindingSignatures this)
         (bindingSignatures subKey);
     revocationSignatures :=
       foldl (revStep primaryKey data now) (revocationSignatures this)
         (revocationSignatures subKey) |}.

(** The local list has at most one signature per issuer. *)
Definition onePerIssuer (L : list Signature) : Prop :=
  NoDup (issuerKeyId <$> L).

(** The local list has an entry of [s]'s issuer, found first by the loop of
    [bindingCheck], that is at least as recent as [s]. *)
Definition covered (L : list Signature) (s : Signature) : Prop :=
  ∃ i e, list_find (λ l, issuerKeyId l = issuerKeyId s) L = Some (i, e)
         ∧ created s ≤ created e.

(** [s] is settled in [L]: another round of the check for [s] changes
    nothing. *)
Definition settled (primaryKey : KeyPacket) (data : DataToVerify)
    (L : list Signature) (s : Signature) : Prop :=
  covered L s
  ∨ (list_find (λ l, issuerKeyId l = issuerKeyId s) L = None
     ∧ acceptsBinding primaryKey data s = false).

(** The signatures of one issuer all pass the acceptance check of [update],
    or all fail it. *)
Definition issuersAgree (primaryKey : KeyPacket) (data : DataToVerify)
    (source : list Signature) : Prop :=
  ∀ s s', s ∈ source → s' ∈ source → issuerKeyId s = issuerKeyId s' →
          acceptsBinding primaryKey data s = acceptsBinding primaryKey data s'.

End MergeReading.

(** ** A concrete service, for the examples *)

(** A signature verifies when its data is the sum of the fingerprints of the
    verifying key and of the bound key; it is expired from its embedded
    expiration on. *)
Definition sumService : SignatureService := {|
  verifies sig k ty data :=
    signatureData sig =? fingerprint k + fingerprint (bind data);
  isExpired sig date :=
    match signatureExpiration sig with
    | Finite t => t <=? date
    | Never => false
    end;
  createSignaturePacket data k props date :=
    inr {| signatureType := prop_signatureType props;
           issuerKeyId := keyId k;
           created := date;
           signatureExpiration := Never;
           keyValidity := None;
           verified := false;
           revoked := false;
           signatureData := fingerprint k + fingerprint (bind data) |};
  reasonForRevocationCode f :=
    match f with
    | noReason => 0
    | keySuperseded => 1
    | keyCompromised => 2
    | keyRetired => 3
    end
|}.

Definition primary0 : KeyPacket :=
  {| tag := secretKey; keyId := 7; fingerprint := 100; keyCreated := 0; decrypted := true |}.

Definition publicSub0 : KeyPacket :=
  {| tag := publicSubkey; keyId := 9; fingerprint := 23; keyCreated := 5; decrypted := true |}.

Definition secretSub0 : KeyPacket :=
  {| tag := secretSubkey; keyId := 9; fingerprint := 23; keyCreated := 5; decrypted := true |}.

Definition otherSub0 : KeyPacket :=
  {| tag := secretSubkey; keyId := 11; fingerprint := 24; keyCreated := 5; decrypted := true |}.

(** A binding signature by [issuer], created at [t]; it verifies under
    [sumService] for [primary0] and [publicSub0] exactly when [data] is 123. *)
Definition bindingSig (issuer t data : Z) : Signature :=
  {| signatureType := subkeyBinding; issuerKeyId := issuer; created := t;
     signatureExpiration := Never; keyValidity := None;
     verified := false; revoked := false; signatureData := data |}.

Definition revocationSig (issuer t data : Z) : Signature :=
  {| signatureType := subkeyRevocation; issuerKeyId := issuer; created := t;
     signatureExpiration := Never; keyValidity := None;
     verified := false; revoked := false; signatureData := data |}.

(** A local public subkey with one binding signature, by issuer 8. *)
Definition localPublic : SubKey :=
  {| keyPacket := publicSub0;
     bindingSignatures := [bindingSig 8 4 123];
     revocationSignatures := [] |}.

(** A fetched copy with the secret packet: issuer 7 signed twice, and the
    later signature does not verify. *)
Definition fetchedMixed : SubKey :=
  {| keyPacket := secretSub0;
     bindingSignatures := [bindingSig 7 10 0; bindingSig 7 5 123];
     revocationSignatures := [] |}.

(** A fetched copy whose binding signatures all verify, with a revocation
    signature that does not. *)
Definition fetchedNewer : SubKey :=
  {| keyPacket := secretSub0;
     bindingSignatures := [bindingSig 8 9 123; bindingSig 7 5 123];
     revocationSignatures := [revocationSig 7 3 0] |}.

(** A copy of another key. *)
Definition stranger : SubKey :=
  {| keyPacket := otherSub0;
     bindingSignatures := [bindingSig 7 5 124];
     revocationSignatures := [] |}.

(** A subkey whose only binding signature does not verify. *)
Definition unbound : SubKey :=
  {| keyPacket := publicSub0;
     bindingSignatures := [bindingSig 7 5 0];
     revocationSignatures := [] |}.

(** A bound subkey with a valid revocation created at 6. *)
Definition revokedLocal : SubKey :=
  {| keyPacket := publicSub0;
     bindingSignatures := [bindingSig 7 5 123];
     revocationSignatures := [revocationSig 7 6 123] |}.

(** A bound subkey that carries a revocation signature by a third party,
    which does not verify. *)
Definition withBogusRevocation : SubKey :=
  {| keyPacket := secretSub0;
     bindingSignatures := [bindingSig 7 5 123];
     revocationSignatures := [revocationSig 12 3 0] |}.

(** A binding signature that expires at 2000 and lets the key live 1000 after
    its creation. *)
Definition expiringSig : Signature :=
  {| signatureType := subkeyBinding; issuerKeyId := 7; created := 5;
     signatureExpiration := Finite 2000; keyValidity := Some 1000;
     verified := false; revoked := false; signatureData := 123 |}.

Definition expiringLocal : SubKey :=
  {| keyPacket := publicSub0;
     bindingSignatures := [expiringSig];
     revocationSignatures := [] |}.

(** ** The rest of the class *)

(** What a packet list holds, as far as a subkey fills it. *)
Inductive Packet :=
  | KeyP (p : KeyPacket)
  | SigP (s : Signature).

#[global] Instance Packet_eq_dec : EqDecision Packet.
Proof. solve_decision. Defined.

(** Modelled from the spec: [PacketList] of the packet module, which is not
    among the sources.  It is an array of packets: [push] appends one packet,
    [concat] appends the packets of a list in their order (section 4.1 fixes
    the resulting order: key, revocations, bindings). *)
Definition PacketList_push (p : Packet) (packetlist : list Packet) : list Packet :=
  packetlist ++ [p].

(** Modelled from the spec: [PacketList.concat], see [PacketList_push]. *)
Definition PacketList_concat (ps : list Packet) (packetlist : list Packet) : list Packet :=
  packetlist ++ ps.

(** [toPacketlist()] *)
Definition toPacketlist (this : SubKey) : list Packet :=
  let packetlist := [] in
  let packetlist := PacketList_push (KeyP (keyPacket this)) packetlist in
  let packetlist := PacketList_concat (SigP <$> revocationSignatures this) packetlist in
  let packetlist := PacketList_concat (SigP <$> bindingSignatures this) packetlist in
  packetlist.

(** The accessors the class borrows: [this.keyPacket[name]()].  The packet's
    own answer is the field of the record. *)
Definition getKeyId (this : SubKey) : Z := keyId (keyPacket this).
Definition getFingerprint (this : SubKey) : Z := fingerprint (keyPacket this).
Definition getCreationTime (this : SubKey) : Z := keyCreated (keyPacket this).
Definition isDecrypted (this : SubKey) : bool := decrypted (keyPacket this).

(** [class SecretSubkeyPacket extends SecretKeyPacket]: the constructor runs
    the parent's on the date and then sets the tag.  The parent class is not
    among the sources; its constructor is the argument [super]. *)
Definition SecretSubkeyPacket (super : Z → KeyPacket) (date : Z) : KeyPacket :=
  let this := super date in
  {| tag := secretSubkey;
     keyId := keyId this;
     fingerprint := fingerprint this;
     keyCreated := keyCreated this;
     decrypted := decrypted this |}.

(** A date is strictly before an expiration. *)
Definition before (date : Z) (e : ExpTime) : Prop :=
  match e with
  | Finite t => date < t
  | Never => True
  end.

(** A revocation signature that revokes at [date]: of the revocation type,
    verifying against the binding context, created at or before the date. *)
Definition revokesAt {svc : SignatureService} (primaryKey : KeyPacket)
    (data : DataToVerify) (date : Z) (rev : Signature) : Prop :=
  signatureType rev = subkeyRevocation
  ∧ verifies rev primaryKey subkeyRevocation data = true
  ∧ created rev ≤ date.

(** A binding signature that is valid at [date]: of the binding type,
    verifying against the binding context, not expired. *)
Definition bindsAt {svc : SignatureService} (primaryKey : KeyPacket)
    (data : DataToVerify) (date : Z) (sig : Signature) : Prop :=
  signatureType sig = subkeyBinding
  ∧ verifies sig primaryKey subkeyBinding data = true
  ∧ isExpired sig date = false.


(** Revocation signatures carry the revocation type, binding signatures do
    not. *)
Definition wellTyped (this : SubKey) : Prop :=
  Forall (λ s, signatureType s = subkeyRevocation) (revocationSignatures this)
  ∧ Forall (λ s, signatureType s ≠ subkeyRevocation) (bindingSignatures this).

(** A parent constructor for the examples. *)
Definition secretKeyAt (date : Z) : KeyPacket :=
  {| tag := secretKey; keyId := 9; fingerprint := 23; keyCreated := date;
     decrypted := false |}.

(** A fetched copy that brings a valid revocation, created at 30. *)
Definition fetchedRevoked : SubKey :=
  {| keyPacket := secretSub0;
     bindingSignatures := [bindingSig 7 5 123];
     revocationSignatures := [revocationSig 7 30 123] |}.

(** * Properties *)

(** ** Selection and the read paths *)

Section ReadPaths.
Context {svc : SignatureService}.

Lemma exp_ltb_spec (a b : ExpTime) :
  exp_ltb a b = true ↔ exp_le a b ∧ a ≠ b.
Proof.
  destruct a as [x|], b as [y|]; simpl.
  - rewrite Z.ltb_lt. split.
    + intros Hlt. split; [lia | intros [= ->]; lia].
    + intros [Hle Hne]. destruct (decide (x = y)) as [->|]; [done | lia].
  - split; [done | auto].
  - split; [done | tauto].
  - split; [done | intros [_ Hne]; done].
Qed.

Lemma select_fold_None primaryKey ty data date signatures best :
  foldl (λ best sig,
           if helper.isValidAsOf primaryKey ty data date sig
           then helper.laterOf best sig else best) best signatures = None
  ↔ best = None
    ∧ Forall (λ sig, helper.isValidAsOf primaryKey ty data date sig = false) signatures.
Proof.
  revert best. induction signatures as [|sig rest IH]; intros best; simpl.
  - split; [intros ->; by split | by intros [-> _]].
  - etrans; [apply IH|]. rewrite list.Forall_cons.
    destruct (helper.isValidAsOf primaryKey ty data date sig) eqn:Hv.
    + split; [|intros [_ [? _]]; done].
      intros [Hl _]. destruct best as [b|]; simpl in Hl; [|done].
      by destruct (created b <? created sig).
    + tauto.
Qed.

Lemma getLatestValidSignature_fails primaryKey ty data date signatures :
  helper.getLatestValidSignature signatures primaryKey ty data date
    = inl NoValidBindingSignature
  ↔ Forall (λ sig, helper.isValidAsOf primaryKey ty data date sig = false) signatures.
Proof.
  unfold helper.getLatestValidSignature.
  pose proof (select_fold_None primaryKey ty data date signatures None) as Hn.
  destruct (foldl _ None signatures) as [sig|].
  - split; [done|]. intros HF. destruct Hn as [_ Hn].
    by specialize (Hn (conj eq_refl HF)).
  - split; [|done]. intros _. by apply Hn.
Qed.

Lemma isValidAsOf_false primaryKey ty data date sig :
  helper.isValidAsOf primaryKey ty data date sig = false
  ↔ ¬ (signatureType sig = ty
       ∧ verifies sig primaryKey ty data = true
       ∧ isExpired sig date = false).
Proof.
  unfold helper.isValidAsOf, helper.signature_verify.
  destruct (verifies sig primaryKey ty data), (isExpired sig date);
    repeat case_bool_decide; simpl; split; try done;
    try (intros _ (_ & ? & ?); done);
    try (intros _ (? & _); done);
    try (intros Hn; exfalso; apply Hn; done).
Qed.

Lemma isDataRevoked_true primaryKey ty data revocations signature k date :
  helper.isDataRevoked primaryKey ty data revocations signature k date = true
  ↔ Exists (λ rev, signatureType rev = ty
                   ∧ verifies rev (default primaryKey k) ty data = true
                   ∧ created rev ≤ date) revocations.
Proof.
  unfold helper.isDataRevoked, helper.signature_verify.
  rewrite existsb_exists, list.Exists_exists. split.
  - intros (rev & Hin & Hb). exists rev. split; [by apply list_elem_of_In|].
    apply andb_true_iff in Hb as [Hb Hc]. apply andb_true_iff in Hb as [Ht Hv].
    apply bool_decide_eq_true_1 in Ht. apply bool_decide_eq_true_1 in Hv.
    apply Z.leb_le in Hc.
    destruct (verifies rev (default primaryKey k) ty data); done.
  - intros (rev & Hin & Ht & Hv & Hc). exists rev. split; [by apply list_elem_of_In|].
    rewrite Hv. rewrite (bool_decide_eq_true_2 _ Ht). simpl.
    by apply Z.leb_le.
Qed.

(** C1.  Whenever a latest valid binding signature is selected,
    [getExpirationTime] returns the minimum of the key-level candidate and of
    the signature's embedded expiration in the order that puts [Never] above
    every date: the result is below both candidates and is one of them, and it
    is [Never] exactly when both are. *)
Theorem getExpirationTime_is_earlier_candidate
    (this : SubKey) (primaryKey : KeyPacket) (date : Z) (bindingSignature : Signature) :
  helper.getLatestValidSignature (bindingSignatures this) primaryKey subkeyBinding
    {| key := primaryKey; bind := keyPacket this |} date = inr bindingSignature →
  let keyExpiry := helper.getExpirationTime (keyPacket this) bindingSignature in
  let sigExpiry := signatureExpiration bindingSignature in
  ∃ r, getExpirationTime this primaryKey date = Some r
       ∧ exp_le r keyExpiry ∧ exp_le r sigExpiry
       ∧ (r = keyExpiry ∨ r = sigExpiry)
       ∧ (r = Never ↔ keyExpiry = Never ∧ sigExpiry = Never).
Proof.
  intros Hsel keyExpiry sigExpiry. unfold getExpirationTime. rewrite Hsel.
  fold keyExpiry sigExpiry.
  destruct (exp_ltb keyExpiry sigExpiry) eqn:Hlt.
  - exists keyExpiry. apply exp_ltb_spec in Hlt as [Hle Hne].
    split_and!; [done | | done | by left |].
    + destruct keyExpiry as [x|]; simpl; [lia|done].
    + split; [|by intros [-> _]].
      intros Hk. rewrite Hk in Hle. destruct sigExpiry; [done|]. by rewrite Hk in Hne.
  - exists sigExpiry. split_and!; [done | | | by right |].
    + destruct keyExpiry as [x|], sigExpiry as [y|]; simpl in *; try done.
      apply Z.ltb_ge in Hlt. lia.
    + destruct sigExpiry as [y|]; simpl; [lia|done].
    + split; [|by intros [_ ->]].
      intros Hs. rewrite Hs in Hlt. split; [|done]. by destruct keyExpiry.
Qed.

(** C2.  When no binding signature is of the binding type, verifies and is
    unexpired as of the date (an empty list included), [getExpirationTime]
    returns [null] and [verify] fails with the selection failure. *)
Theorem no_valid_binding_signature
    (this : SubKey) (primaryKey : KeyPacket) (date : Z) :
  Forall (λ sig, ¬ (signatureType sig = subkeyBinding
                    ∧ verifies sig primaryKey subkeyBinding
                        {| key := primaryKey; bind := keyPacket this |} = true
                    ∧ isExpired sig date = false)) (bindingSignatures this) →
  getExpirationTime this primaryKey date = None
  ∧ verify this primaryKey date = inl NoValidBindingSignature.
Proof.
  intros Hnone.
  assert (helper.getLatestValidSignature (bindingSignatures this) primaryKey
            subkeyBinding {| key := primaryKey; bind := keyPacket this |} date
          = inl NoValidBindingSignature) as Hsel.
  { apply getLatestValidSignature_fails.
    eapply list.Forall_impl; [exact Hnone|]. intros sig Hs. by apply isValidAsOf_false. }
  unfold getExpirationTime, verify. by rewrite Hsel.
Qed.

Lemma verify_fails_revoked
    (this : SubKey) (primaryKey : KeyPacket) (date : Z) (bindingSignature : Signature) :
  helper.getLatestValidSignature (bindingSignatures this) primaryKey subkeyBinding
    {| key := primaryKey; bind := keyPacket this |} date = inr bindingSignature →
  revoked bindingSignature = true
  ∨ Exists (λ rev, signatureType rev = subkeyRevocation
                   ∧ verifies rev primaryKey subkeyRevocation
                       {| key := primaryKey; bind := keyPacket this |} = true
                   ∧ created rev ≤ date) (revocationSignatures this) →
  verify this primaryKey date = inl Revoked.
Proof.
  intros Hsel Hrev. unfold verify. rewrite Hsel.
  destruct Hrev as [-> | Hex]; [done|].
  replace (isRevoked this primaryKey (Some bindingSignature) None date) with true.
  { by rewrite orb_true_r. }
  symmetry. unfold isRevoked. by apply isDataRevoked_true.
Qed.

(** C3.  Once a binding signature is selected, [verify] fails with [Revoked]
    if that signature's revoked flag is set, or if some revocation signature
    of the subkey-revocation type verifies against the binding context and
    was created at or before the date; the creation time of the selected
    signature plays no part. *)
Theorem verify_revoked
    (this : SubKey) (primaryKey : KeyPacket) (date : Z) (bindingSignature : Signature) :
  helper.getLatestValidSignature (bindingSignatures this) primaryKey subkeyBinding
    {| key := primaryKey; bind := keyPacket this |} date = inr bindingSignature →
  revoked bindingSignature = true
  ∨ Exists (λ rev, signatureType rev = subkeyRevocation
                   ∧ verifies rev primaryKey subkeyRevocation
                       {| key := primaryKey; bind := keyPacket this |} = true
                   ∧ created rev ≤ date) (revocationSignatures this) →
  verify this primaryKey date = inl Revoked.
Proof. apply verify_fails_revoked. Qed.

End ReadPaths.

(** ** The merge as the functions of [MergeReading] *)

Section WritePaths.
Context {svc : SignatureService}.

Lemma set_bindingSignatures_same (that : SubKey) :
  set_bindingSignatures (bindingSignatures that) that = that.
Proof. by destruct that. Qed.

Lemma set_revocationSignatures_same (that : SubKey) :
  set_revocationSignatures (revocationSignatures that) that = that.
Proof. by destruct that. Qed.

(** What one run of the binding check returns and leaves in [that]. *)
Lemma bindingCheck_run primaryKey data srcBindSig (that : SubKey) :
  bindingCheck primaryKey data srcBindSig that =
  match list_find (λ l, issuerKeyId l = issuerKeyId srcBindSig)
          (bindingSignatures that) with
  | Some (i, l) =>
      (if created l <? created srcBindSig
       then set_bindingSignatures (<[i:=srcBindSig]> (bindingSignatures that)) that
       else that, inr false)
  | None => (that, inr (acceptsBinding primaryKey data srcBindSig))
  end.
Proof.
  unfold bindingCheck, bind_M, get. simpl.
  destruct (list_find _ (bindingSignatures that)) as [[i l]|].
  - by destruct (created l <? created srcBindSig).
  - unfold try_catch, acceptsBinding, helper.signature_verify, ret, lift.
    destruct (verified srcBindSig); [done|]. simpl.
    by destruct (verifies srcBindSig primaryKey subkeyBinding data).
Qed.

(** One round of the loop of [mergeSignatures]. *)
Lemma mergeList_cons s rest attr (checkFn : Signature → M bool) (that : SubKey) :
  helper.mergeList (s :: rest) attr checkFn that =
  match checkFn s that with
  | (that', inr ok) =>
      helper.mergeList rest attr checkFn
        (if ok && negb (bool_decide (s ∈ getAttr attr that'))
         then setAttr attr (getAttr attr that' ++ [s]) that' else that')
  | (that', inl e) => (that', inl e)
  end.
Proof.
  simpl. unfold bind_M at 1. destruct (checkFn s that) as [that' [e|ok]]; [done|].
  unfold bind_M, get, put, ret.
  by destruct (ok && negb (bool_decide (s ∈ getAttr attr that'))).
Qed.

Lemma mergeList_binding primaryKey data source (that : SubKey) :
  helper.mergeList source bindingSignaturesAttr (bindingCheck primaryKey data) that
  = (set_bindingSignatures
       (foldl (bindStep primaryKey data) (bindingSignatures that) source) that,
     inr tt).
Proof.
  revert that. induction source as [|s rest IH]; intros that.
  - simpl. by rewrite set_bindingSignatures_same.
  - rewrite mergeList_cons, bindingCheck_run. simpl foldl. unfold bindStep at 2.
    destruct (list_find _ (bindingSignatures that)) as [[i l]|] eqn:Hf.
    + rewrite IH. destruct (created l <? created s); [by destruct that|done].
    + rewrite IH.
      destruct (acceptsBinding primaryKey data s); [|done].
      rewrite bool_decide_eq_false_2; [by destruct that|].
      simpl. intros Hin. apply list_find_None in Hf.
      rewrite list.Forall_forall in Hf. by apply (Hf s).
Qed.

Lemma mergeList_revocation primaryKey data now source (that : SubKey) :
  helper.mergeList source revocationSignaturesAttr
    (revocationCheck primaryKey data now) that
  = (set_revocationSignatures
       (foldl (revStep primaryKey data now) (revocationSignatures that) source) that,
     inr tt).
Proof.
  revert that. induction source as [|s rest IH]; intros that.
  - simpl. by rewrite set_revocationSignatures_same.
  - rewrite mergeList_cons. unfold revocationCheck at 1, ret.
    fold (acceptsRevocation primaryKey data now s).
    rewrite IH. cbn [foldl getAttr].
    assert (revStep primaryKey data now (revocationSignatures that) s
            = if acceptsRevocation primaryKey data now s
                 && negb (bool_decide (s ∈ revocationSignatures that))
              then revocationSignatures that ++ [s]
              else revocationSignatures that) as -> by done.
    destruct (acceptsRevocation primaryKey data now s
              && negb (bool_decide (s ∈ revocationSignatures that))); [|done].
    by destruct that.
Qed.

(** A call of [update] with matching fingerprints returns, and leaves
    [merged]. *)
Lemma update_run (this subKey : SubKey) primaryKey now :
  hasSameFingerprintAs this (inl subKey) = true →
  update subKey primaryKey now this = (merged this subKey primaryKey now, inr tt).
Proof.
  intros Hfp. unfold update, bind_M at 1, get. rewrite Hfp. simpl.
  unfold merged, upgradedPacket, helper.mergeSignatures.
  destruct (bool_decide (tag (keyPacket this) = publicSubkey)
            && bool_decide (tag (keyPacket subKey) = secretSubkey));
    unfold bind_M, put, ret, get; simpl;
    rewrite mergeList_binding, mergeList_revocation; by destruct this.
Qed.

(** A call with different fingerprints throws before it writes. *)
Lemma update_mismatch (this subKey : SubKey) primaryKey now :
  hasSameFingerprintAs this (inl subKey) = false →
  update subKey primaryKey now this = (this, inl FingerprintMismatch).
Proof. intros Hfp. unfold update, bind_M, get, throw. by rewrite Hfp. Qed.

(** ** One binding signature per issuer *)

Lemma issuers_insert (L : list Signature) i l s :
  L !! i = Some l → issuerKeyId s = issuerKeyId l →
  issuerKeyId <$> <[i:=s]> L = issuerKeyId <$> L.
Proof.
  intros Hi Hs. rewrite list_fmap_insert, Hs.
  apply list_insert_id. by rewrite list_lookup_fmap, Hi.
Qed.

Lemma bindStep_onePerIssuer primaryKey data (L : list Signature) s :
  onePerIssuer L → onePerIssuer (bindStep primaryKey data L s).
Proof.
  unfold onePerIssuer, bindStep. intros HL.
  destruct (list_find _ L) as [[i l]|] eqn:Hf.
  - apply list_find_Some in Hf as (Hi & Hl & _).
    destruct (created l <? created s); [|done].
    by rewrite (issuers_insert L i l s).
  - destruct (acceptsBinding primaryKey data s); [|done].
    rewrite fmap_app. apply list.NoDup_app. split_and!; [done| |apply list.NoDup_singleton].
    intros k Hk [= ->]%list_elem_of_singleton.
    apply list_elem_of_fmap in Hk as (l & Hkl & Hin).
    apply list_find_None in Hf. rewrite list.Forall_forall in Hf.
    by apply (Hf l).
Qed.

Lemma foldl_bindStep_onePerIssuer primaryKey data source (L : list Signature) :
  onePerIssuer L → onePerIssuer (foldl (bindStep primaryKey data) L source).
Proof.
  revert L. induction source as [|s rest IH]; intros L HL; simpl; [done|].
  by apply IH, bindStep_onePerIssuer.
Qed.

(** The slot [i] of the local list after one source signature: it keeps its
    issuer, holds the old entry or the candidate, and never gets older. *)
Lemma bindStep_slot primaryKey data (L : list Signature) s i l :
  L !! i = Some l →
  ∃ e, bindStep primaryKey data L s !! i = Some e
       ∧ issuerKeyId e = issuerKeyId l
       ∧ (e = l ∨ e = s)
       ∧ created l ≤ created e.
Proof.
  intros Hi. unfold bindStep.
  destruct (list_find _ L) as [[j l']|] eqn:Hf.
  - apply list_find_Some in Hf as (Hj & Hl' & _).
    destruct (created l' <? created s) eqn:Hc; [|exists l; split_and!; auto; lia].
    apply Z.ltb_lt in Hc. destruct (decide (i = j)) as [->|Hne].
    + exists s. rewrite list_lookup_insert_eq by (by eapply lookup_lt_Some).
      assert (l' = l) as -> by congruence. split_and!; auto; lia.
    + exists l. rewrite list_lookup_insert_ne by done. split_and!; auto; lia.
  - destruct (acceptsBinding primaryKey data s); exists l;
      [rewrite lookup_app_l by (by eapply lookup_lt_Some)|]; split_and!; auto; lia.
Qed.

(** When the candidate is of the issuer of that slot, the slot ends up at
    least as recent as the candidate. *)
Lemma bindStep_slot_same_issuer primaryKey data (L : list Signature) s i l :
  onePerIssuer L → L !! i = Some l → issuerKeyId s = issuerKeyId l →
  ∃ e, bindStep primaryKey data L s !! i = Some e ∧ created s ≤ created e.
Proof.
  intros HL Hi Hs. unfold bindStep.
  destruct (list_find _ L) as [[j l']|] eqn:Hf.
  - apply list_find_Some in Hf as (Hj & Hl' & _).
    assert (j = i) as ->.
    { apply (NoDup_lookup (issuerKeyId <$> L) j i (issuerKeyId l)); [done|..];
        rewrite list_lookup_fmap; [rewrite Hj|rewrite Hi]; simpl; congruence. }
    assert (l' = l) as -> by congruence.
    destruct (created l <? created s) eqn:Hc.
    + exists s. rewrite list_lookup_insert_eq by (by eapply lookup_lt_Some).
      split; [done|lia].
    + exists l. apply Z.ltb_ge in Hc. by split.
  - apply list_find_None in Hf. rewrite list.Forall_forall in Hf.
    exfalso. apply (Hf l); [|done]. by eapply list_elem_of_lookup_2.
Qed.

Lemma foldl_bindStep_slot primaryKey data source (L : list Signature) i l :
  L !! i = Some l →
  ∃ e, foldl (bindStep primaryKey data) L source !! i = Some e
       ∧ issuerKeyId e = issuerKeyId l
       ∧ (e = l ∨ e ∈ source)
       ∧ created l ≤ created e.
Proof.
  revert L l. induction source as [|s0 rest IH]; intros L l Hi; simpl.
  - exists l. split_and!; auto; lia.
  - destruct (bindStep_slot primaryKey data L s0 i l Hi) as (e1 & H1 & Hk1 & He1 & Hc1).
    destruct (IH _ _ H1) as (e & He & Hk & Hor & Hc).
    exists e. split_and!; [done|congruence| |lia].
    destruct Hor as [->|Hin]; [|right; by apply list_elem_of_further].
    destruct He1 as [->| ->]; [by left|right; apply list_elem_of_here].
Qed.

Lemma foldl_bindStep_retains primaryKey data source (L : list Signature) i l s :
  onePerIssuer L → L !! i = Some l →
  s ∈ source → issuerKeyId s = issuerKeyId l →
  ∃ e, foldl (bindStep primaryKey data) L source !! i = Some e
       ∧ issuerKeyId e = issuerKeyId l
       ∧ (e = l ∨ e ∈ source)
       ∧ created l ≤ created e
       ∧ created s ≤ created e.
Proof.
  revert L l. induction source as [|s0 rest IH]; intros L l HL Hi Hin Hs.
  - by apply elem_of_nil in Hin.
  - simpl.
    destruct (bindStep_slot primaryKey data L s0 i l Hi) as (e1 & H1 & Hk1 & He1 & Hc1).
    assert (e1 = l ∨ e1 ∈ s0 :: rest) as He1'.
    { destruct He1 as [->| ->]; [by left|right; apply list_elem_of_here]. }
    apply elem_of_cons in Hin as [->|Hin].
    + destruct (bindStep_slot_same_issuer primaryKey data L s0 i l HL Hi Hs)
        as (e1' & H1' & Hc1').
      assert (e1' = e1) as -> by congruence.
      destruct (foldl_bindStep_slot primaryKey data rest _ i e1 H1)
        as (e & He & Hk & Hor & Hc).
      exists e. split_and!; [done|congruence| |lia|lia].
      destruct Hor as [->|Hin]; [done|right; by apply list_elem_of_further].
    + destruct (IH (bindStep primaryKey data L s0) e1) as (e & He & Hk & Hor & Hc & Hcs);
        [by apply bindStep_onePerIssuer|done|done|congruence|].
      exists e. split_and!; [done|congruence| |lia|lia].
      destruct Hor as [->|Hin']; [done|right; by apply list_elem_of_further].
Qed.

(** ** Merging the same source again *)

Lemma list_find_issuer_insert (L : list Signature) k i e j l' s' :
  list_find (λ l, issuerKeyId l = k) L = Some (i, e) →
  L !! j = Some l' → issuerKeyId s' = issuerKeyId l' →
  list_find (λ l, issuerKeyId l = k) (<[j:=s']> L)
  = Some (i, if decide (i = j) then s' else e).
Proof.
  intros (Hi & He & Hleast)%list_find_Some Hj Hs.
  apply list_find_Some. split_and!.
  - destruct (decide (i = j)) as [->|Hne].
    + apply list_lookup_insert_eq. by eapply lookup_lt_Some.
    + by rewrite list_lookup_insert_ne.
  - destruct (decide (i = j)) as [->|Hne]; [|done].
    assert (l' = e) as -> by congruence. congruence.
  - intros m y Hm Hlt. destruct (decide (m = j)) as [->|Hne].
    + rewrite list_lookup_insert_eq in Hm by (by eapply lookup_lt_Some).
      injection Hm as <-. rewrite Hs. by apply (Hleast j).
    + rewrite list_lookup_insert_ne in Hm by done. by apply (Hleast m).
Qed.

Lemma bindStep_covered_id primaryKey data (L : list Signature) s :
  covered L s → bindStep primaryKey data L s = L.
Proof.
  intros (i & e & Hf & Hc). unfold bindStep. rewrite Hf.
  by rewrite (proj2 (Z.ltb_ge _ _) Hc).
Qed.

Lemma covered_bindStep primaryKey data (L : list Signature) s s' :
  covered L s → covered (bindStep primaryKey data L s') s.
Proof.
  intros (i & e & Hf & Hc). unfold bindStep.
  destruct (list_find (λ l, issuerKeyId l = issuerKeyId s') L) as [[j l']|] eqn:Hf'.
  - destruct (created l' <? created s') eqn:Hlt; [|by exists i, e].
    apply Z.ltb_lt in Hlt.
    pose proof Hf' as (Hj & Hl' & _)%list_find_Some.
    exists i, (if decide (i = j) then s' else e). split.
    + by apply (list_find_issuer_insert L _ i e j l' s').
    + destruct (decide (i = j)) as [->|Hne]; [|done].
      apply list_find_Some in Hf as (Hi & _). assert (l' = e) as -> by congruence. lia.
  - destruct (acceptsBinding primaryKey data s'); [|by exists i, e].
    exists i, e. split; [|done]. by apply list_find_app_l.
Qed.

Lemma bindStep_settled_id primaryKey data (L : list Signature) s :
  settled primaryKey data L s → bindStep primaryKey data L s = L.
Proof.
  intros [Hc|[Hf Hacc]]; [by apply bindStep_covered_id|].
  unfold bindStep. by rewrite Hf, Hacc.
Qed.

Lemma settled_after_own_step primaryKey data (L : list Signature) s :
  settled primaryKey data (bindStep primaryKey data L s) s.
Proof.
  unfold bindStep.
  destruct (list_find _ L) as [[i l]|] eqn:Hf.
  - left. destruct (created l <? created s) eqn:Hlt.
    + pose proof Hf as (Hi & Hl & _)%list_find_Some.
      exists i, s. split; [|lia].
      rewrite (list_find_issuer_insert L _ i l i l s) by done.
      by rewrite decide_True.
    + apply Z.ltb_ge in Hlt. by exists i, l.
  - destruct (acceptsBinding primaryKey data s) eqn:Hacc; [left|by right].
    exists (length L), s. split; [|lia].
    rewrite list_find_app_r by done. simpl.
    rewrite decide_True by done. simpl. f_equal.
Qed.

Lemma settled_bindStep primaryKey data (L : list Signature) s s' :
  settled primaryKey data L s →
  (issuerKeyId s' = issuerKeyId s →
   acceptsBinding primaryKey data s' = acceptsBinding primaryKey data s) →
  settled primaryKey data (bindStep primaryKey data L s') s.
Proof.
  intros [Hc|[Hf Hacc]] Hsame; [left; by apply covered_bindStep|].
  right. split; [|done]. unfold bindStep.
  destruct (list_find (λ l, issuerKeyId l = issuerKeyId s') L) as [[j l']|] eqn:Hf'.
  - destruct (created l' <? created s'); [|done].
    apply list_find_Some in Hf' as (Hj & Hl' & _).
    apply list_find_None. apply list_find_None in Hf.
    apply Forall_insert; [done|].
    rewrite list.Forall_forall in Hf. intros Heq.
    apply (Hf l'); [by eapply list_elem_of_lookup_2|congruence].
  - destruct (decide (issuerKeyId s' = issuerKeyId s)) as [Heq|Hne].
    + by rewrite (Hsame Heq), Hacc.
    + destruct (acceptsBinding primaryKey data s'); [|done].
      apply list_find_app_None. split; [done|].
      apply list_find_None. by constructor.
Qed.

Lemma settled_foldl primaryKey data rest (L : list Signature) s :
  settled primaryKey data L s →
  (∀ s', s' ∈ rest → issuerKeyId s' = issuerKeyId s →
         acceptsBinding primaryKey data s' = acceptsBinding primaryKey data s) →
  settled primaryKey data (foldl (bindStep primaryKey data) L rest) s.
Proof.
  revert L. induction rest as [|s' rest IH]; intros L Hs Hsame; simpl; [done|].
  apply IH.
  - apply settled_bindStep; [done|]. apply Hsame, list_elem_of_here.
  - intros s'' Hin. by apply Hsame, list_elem_of_further.
Qed.

Lemma source_settled_after_merge primaryKey data source (L : list Signature) :
  issuersAgree primaryKey data source →
  Forall (settled primaryKey data (foldl (bindStep primaryKey data) L source)) source.
Proof.
  revert L. induction source as [|s rest IH]; intros L Hagree; [constructor|].
  simpl. constructor.
  - apply settled_foldl; [apply settled_after_own_step|].
    intros s' Hin Heq. apply Hagree;
      [by apply list_elem_of_further|apply list_elem_of_here|done].
  - apply IH. intros s1 s2 H1 H2. apply Hagree; by apply list_elem_of_further.
Qed.

Lemma foldl_bindStep_settled_id primaryKey data source (K : list Signature) :
  Forall (settled primaryKey data K) source →
  foldl (bindStep primaryKey data) K source = K.
Proof.
  induction source as [|s rest IH]; intros Hc; simpl; [done|].
  apply list.Forall_cons in Hc as [Hs Hrest].
  rewrite bindStep_settled_id by done. by apply IH.
Qed.

(** Merging the binding signatures of the same source a second time changes
    none, when its issuers agree. *)
Lemma foldl_bindStep_twice primaryKey data source (L : list Signature) :
  issuersAgree primaryKey data source →
  foldl (bindStep primaryKey data) (foldl (bindStep primaryKey data) L source) source
  = foldl (bindStep primaryKey data) L source.
Proof.
  intros Hagree. by apply foldl_bindStep_settled_id, source_settled_after_merge.
Qed.

(** ** Merging revocation signatures *)

Lemma foldl_revStep_prefix primaryKey data now source (R : list Signature) :
  R `prefix_of` foldl (revStep primaryKey data now) R source.
Proof.
  revert R. induction source as [|r rest IH]; intros R; simpl; [done|].
  etrans; [|apply IH]. unfold revStep.
  destruct (_ && _); [by apply prefix_app_r|done].
Qed.

Lemma foldl_revStep_elem primaryKey data now source (R : list Signature) e :
  e ∈ foldl (revStep primaryKey data now) R source
  ↔ e ∈ R ∨ (e ∈ source ∧ acceptsRevocation primaryKey data now e = true).
Proof.
  revert R. induction source as [|r rest IH]; intros R; simpl.
  - split; [by left|]. intros [?|[Hin _]]; [done|]. by apply elem_of_nil in Hin.
  - rewrite IH, elem_of_cons. unfold revStep.
    destruct (acceptsRevocation primaryKey data now r) eqn:Hacc; simpl.
    + destruct (decide (r ∈ R)) as [Hin|Hin];
        [rewrite (bool_decide_eq_true_2 _ Hin)|rewrite (bool_decide_eq_false_2 _ Hin)];
        simpl; rewrite ?elem_of_app, ?list_elem_of_singleton.
      * split; [tauto|]. intros [?|[[->|?] ?]]; auto.
      * split; [intros [[?| ->]|[? ?]]; auto|].
        intros [?|[[->|?] ?]]; auto.
    + split; [tauto|]. intros [?|[[->|?] ?]]; auto. congruence.
Qed.

Lemma foldl_revStep_length primaryKey data now source (R : list Signature) :
  (length (foldl (revStep primaryKey data now) R source)
   ≤ length R + length source)%nat.
Proof.
  revert R. induction source as [|r rest IH]; intros R; simpl; [lia|].
  etrans; [apply IH|]. unfold revStep.
  destruct (_ && _); rewrite ?length_app; simpl; lia.
Qed.

(** A source whose accepted revocation signatures the list already holds
    adds nothing. *)
Lemma foldl_revStep_id primaryKey data now source (K : list Signature) :
  (∀ r, r ∈ source → acceptsRevocation primaryKey data now r = true → r ∈ K) →
  foldl (revStep primaryKey data now) K source = K.
Proof.
  induction source as [|r rest IH]; intros Hheld; simpl; [done|].
  assert (revStep primaryKey data now K r = K) as ->.
  { unfold revStep. destruct (acceptsRevocation primaryKey data now r) eqn:Hacc; [|done].
    rewrite bool_decide_eq_true_2; [done|]. apply Hheld; [apply list_elem_of_here|done]. }
  apply IH. intros r' Hin. apply Hheld. by apply list_elem_of_further.
Qed.

Lemma acceptsRevocation_true primaryKey data now rev :
  acceptsRevocation primaryKey data now rev = true
  ↔ signatureType rev = subkeyRevocation
    ∧ verifies rev primaryKey subkeyRevocation data = true
    ∧ created rev ≤ now.
Proof.
  unfold acceptsRevocation. rewrite isDataRevoked_true, Exists_cons, Exists_nil.
  simpl. tauto.
Qed.

(** ** [update] *)

Lemma SubKey_eq (a b : SubKey) :
  keyPacket a = keyPacket b →
  bindingSignatures a = bindingSignatures b →
  revocationSignatures a = revocationSignatures b →
  a = b.
Proof. destruct a, b. simpl. by intros -> -> ->. Qed.

Lemma update_total (this subKey : SubKey) primaryKey now :
  update subKey primaryKey now this
  = if hasSameFingerprintAs this (inl subKey)
    then (merged this subKey primaryKey now, inr tt)
    else (this, inl FingerprintMismatch).
Proof.
  destruct (hasSameFingerprintAs this (inl subKey)) eqn:Hfp.
  - by apply update_run.
  - by apply update_mismatch.
Qed.

(** C4.  When the fingerprints of the two key packets differ, [update] fails
    with [FingerprintMismatch] and [this] is what it was: key packet, binding
    signatures and revocation signatures. *)
Theorem update_fingerprint_mismatch (this subKey : SubKey) primaryKey now :
  fingerprint (keyPacket this) ≠ fingerprint (keyPacket subKey) →
  update subKey primaryKey now this = (this, inl FingerprintMismatch).
Proof.
  intros Hne. apply update_mismatch.
  unfold hasSameFingerprintAs, KeyPacket_hasSameFingerprintAs.
  by apply bool_decide_eq_false_2.
Qed.

(** C5.  Whatever [update] returns, the key packet of [this] is replaced only
    when it was a public subkey packet and the source holds a secret subkey
    packet of the same fingerprint, and then by that packet; a packet that is
    not a public subkey packet, a secret one in particular, stays. *)
Theorem update_keyPacket_upgrade_only (this subKey this' : SubKey) primaryKey now r :
  update subKey primaryKey now this = (this', r) →
  (keyPacket this' ≠ keyPacket this →
   tag (keyPacket this) = publicSubkey
   ∧ tag (keyPacket subKey) = secretSubkey
   ∧ fingerprint (keyPacket subKey) = fingerprint (keyPacket this)
   ∧ keyPacket this' = keyPacket subKey)
  ∧ (tag (keyPacket this) ≠ publicSubkey → keyPacket this' = keyPacket this)
  ∧ (tag (keyPacket this') = publicSubkey → keyPacket this' = keyPacket this).
Proof.
  rewrite update_total.
  destruct (hasSameFingerprintAs this (inl subKey)) eqn:Hfp; intros [= <- <-];
    [|by split_and!].
  unfold hasSameFingerprintAs, KeyPacket_hasSameFingerprintAs in Hfp.
  apply bool_decide_eq_true_1 in Hfp.
  unfold merged, upgradedPacket. simpl.
  destruct (decide (tag (keyPacket this) = publicSubkey)) as [Hpub|Hpub];
    [rewrite (bool_decide_eq_true_2 _ Hpub)|rewrite (bool_decide_eq_false_2 _ Hpub)];
    simpl; [|by split_and!].
  destruct (decide (tag (keyPacket subKey) = secretSubkey)) as [Hsec|Hsec];
    [rewrite (bool_decide_eq_true_2 _ Hsec)|rewrite (bool_decide_eq_false_2 _ Hsec)];
    simpl; [|by split_and!].
  split_and!; [done|done|]. intros Hp. congruence.
Qed.

(** C6.  A binding list with at most one signature per issuer still has at
    most one per issuer after [update]; and after a call that returns, the
    slot of a local entry whose issuer a source signature shares holds a
    signature of that issuer, the old entry or one of the source, at least as
    recent as the old entry and as that source signature. *)
Theorem update_one_binding_per_issuer (this subKey : SubKey) primaryKey now :
  onePerIssuer (bindingSignatures this) →
  let this' := fst (update subKey primaryKey now this) in
  onePerIssuer (bindingSignatures this')
  ∧ (hasSameFingerprintAs this (inl subKey) = true →
     ∀ i l s,
       bindingSignatures this !! i = Some l →
       s ∈ bindingSignatures subKey →
       issuerKeyId s = issuerKeyId l →
       ∃ e, bindingSignatures this' !! i = Some e
            ∧ issuerKeyId e = issuerKeyId l
            ∧ (e = l ∨ e ∈ bindingSignatures subKey)
            ∧ created l ≤ created e
            ∧ created s ≤ created e).
Proof.
  intros Hone. rewrite update_total.
  destruct (hasSameFingerprintAs this (inl subKey)); simpl; [|by split].
  split.
  - by apply foldl_bindStep_onePerIssuer.
  - intros _ i l s Hi Hs Hk. by apply foldl_bindStep_retains.
Qed.

Lemma merged_same_fingerprint (A B : SubKey) primaryKey now :
  hasSameFingerprintAs A (inl B) = true →
  hasSameFingerprintAs (merged A B primaryKey now) (inl B) = true.
Proof.
  unfold hasSameFingerprintAs, merged, upgradedPacket. simpl. intros Hfp.
  destruct (_ && _); [|done].
  unfold KeyPacket_hasSameFingerprintAs. by apply bool_decide_eq_true_2.
Qed.

(** The upgrade of step 1 has nothing left to do on a merged entity. *)
Lemma upgradedPacket_merged (A B : SubKey) primaryKey now :
  upgradedPacket (merged A B primaryKey now) B = upgradedPacket A B.
Proof.
  unfold upgradedPacket at 1. unfold merged. simpl. unfold upgradedPacket.
  destruct (decide (tag (keyPacket A) = publicSubkey)) as [Hpub|Hpub];
    [rewrite (bool_decide_eq_true_2 _ Hpub)|rewrite (bool_decide_eq_false_2 _ Hpub)];
    simpl; [|by rewrite (bool_decide_eq_false_2 _ Hpub)].
  destruct (decide (tag (keyPacket B) = secretSubkey)) as [Hsec|Hsec];
    [rewrite (bool_decide_eq_true_2 _ Hsec)|rewrite (bool_decide_eq_false_2 _ Hsec)];
    simpl.
  - by destruct (_ && _).
  - by rewrite (bool_decide_eq_true_2 _ Hpub).
Qed.

(** C7, as the code has it.  With matching fingerprints, and a source whose
    binding signatures of one issuer all pass or all fail the acceptance
    check, a second [update] from the same source returns and leaves the
    entity exactly as the first did: key packet, binding signatures and
    revocation signatures.  The revocation check reads the clock; the two
    readings are such that no revocation signature of the source is created
    after the first and by the second. *)
Theorem update_twice (A B : SubKey) primaryKey now1 now2 :
  let A1 := fst (update B primaryKey now1 A) in
  let data := {| key := primaryKey; bind := keyPacket A1 |} in
  hasSameFingerprintAs A (inl B) = true →
  (∀ s s', s ∈ bindingSignatures B → s' ∈ bindingSignatures B →
           issuerKeyId s = issuerKeyId s' →
           (verified s || verifies s primaryKey subkeyBinding data)
           = (verified s' || verifies s' primaryKey subkeyBinding data)) →
  Forall (λ rev, created rev ≤ now2 → created rev ≤ now1) (revocationSignatures B) →
  update B primaryKey now2 A1 = (A1, inr tt).
Proof.
  intros A1 data Hfp Hagree Htime. subst data A1.
  rewrite (update_run A B) in * by done. simpl in Hagree.
  pose proof (merged_same_fingerprint A B primaryKey now1 Hfp) as Hfp1.
  pose proof (upgradedPacket_merged A B primaryKey now1) as Hkp.
  cbn [fst]. rewrite update_run by done. f_equal.
  apply SubKey_eq.
  - exact Hkp.
  - unfold merged at 1. cbn [bindingSignatures]. rewrite Hkp. unfold merged.
    cbn [bindingSignatures]. by apply foldl_bindStep_twice.
  - unfold merged at 1. cbn [revocationSignatures]. rewrite Hkp. unfold merged.
    cbn [revocationSignatures]. apply foldl_revStep_id.
    intros r Hin Hacc. apply foldl_revStep_elem. right. split; [done|].
    apply acceptsRevocation_true in Hacc as (Ht & Hv & Hc).
    apply acceptsRevocation_true. split_and!; [done|done|].
    rewrite list.Forall_forall in Htime. by apply (Htime r).
Qed.


(** C10.  During [update], take the source binding signature that comes up
    last, and the target as the merge has left it by then.  If the target
    holds an entry of that signature's issuer, a strictly later signature is
    written over the first such entry and nothing else changes; an equally
    old one changes nothing.  Neither the verified flag of the signature nor
    the verification service has a say: the statement holds whatever they
    answer. *)
Theorem same_issuer_replaced_unverified
    (this subKey : SubKey) primaryKey now (srcBindSig l : Signature) (i : nat) :
  hasSameFingerprintAs this (inl subKey) = true →
  let reached := fst (update subKey primaryKey now this) in
  let result :=
    fst (update
           (set_bindingSignatures (bindingSignatures subKey ++ [srcBindSig]) subKey)
           primaryKey now this) in
  list_find (λ l, issuerKeyId l = issuerKeyId srcBindSig) (bindingSignatures reached)
    = Some (i, l) →
  (created l < created srcBindSig →
   result
   = set_bindingSignatures (<[i:=srcBindSig]> (bindingSignatures reached)) reached
   ∧ bindingSignatures result !! i = Some srcBindSig)
  ∧ (created srcBindSig = created l → result = reached).
Proof.
  intros Hfp reached result. subst reached result.
  rewrite !update_run by done. cbn [fst].
  set (source' := set_bindingSignatures _ subKey).
  assert (merged this source' primaryKey now
          = set_bindingSignatures
              (bindStep primaryKey
                 {| key := primaryKey; bind := upgradedPacket this subKey |}
                 (bindingSignatures (merged this subKey primaryKey now)) srcBindSig)
              (merged this subKey primaryKey now)) as ->.
  { unfold merged, source', upgradedPacket, set_bindingSignatures. simpl.
    by rewrite foldl_app. }
  intros Hfind. unfold bindStep. rewrite Hfind. split.
  - intros Hlt. rewrite (proj2 (Z.ltb_lt _ _) Hlt). split; [done|].
    apply list_find_Some in Hfind as (Hi & _). simpl.
    apply list_lookup_insert_eq. by eapply lookup_lt_Some.
  - intros Heq. rewrite (proj2 (Z.ltb_ge _ _) (Z.eq_le_incl _ _ Heq)).
    apply set_bindingSignatures_same.
Qed.

End WritePaths.

(** * Examples *)

(** The theorems above at [sumService] and the example subkeys. *)

Lemma getExpirationTime_is_earlier_candidate_witness :
  helper.getLatestValidSignature (svc := sumService) (bindingSignatures expiringLocal)
    primary0 subkeyBinding {| key := primary0; bind := keyPacket expiringLocal |} 60
    = inr expiringSig
  ∧ ∃ r, getExpirationTime (svc := sumService) expiringLocal primary0 60 = Some r
         ∧ exp_le r (helper.getExpirationTime (keyPacket expiringLocal) expiringSig)
         ∧ exp_le r (signatureExpiration expiringSig)
         ∧ (r = helper.getExpirationTime (keyPacket expiringLocal) expiringSig
            ∨ r = signatureExpiration expiringSig)
         ∧ (r = Never
            ↔ helper.getExpirationTime (keyPacket expiringLocal) expiringSig = Never
              ∧ signatureExpiration expiringSig = Never).
Proof.
  split; [reflexivity|].
  apply (getExpirationTime_is_earlier_candidate (svc := sumService)
           expiringLocal primary0 60 expiringSig).
  reflexivity.
Defined.

Lemma no_valid_binding_signature_witness :
  getExpirationTime (svc := sumService) unbound primary0 60 = None
  ∧ verify (svc := sumService) unbound primary0 60 = inl NoValidBindingSignature.
Proof.
  apply (no_valid_binding_signature (svc := sumService) unbound primary0 60).
  repeat constructor. intros (_ & Hv & _). vm_compute in Hv. discriminate Hv.
Defined.

Lemma verify_revoked_witness :
  verify (svc := sumService) revokedLocal primary0 60 = inl Revoked.
Proof.
  apply (verify_revoked (svc := sumService) revokedLocal primary0 60 (bindingSig 7 5 123)).
  - reflexivity.
  - right. apply Exists_cons_hd. split_and!; [reflexivity|reflexivity|vm_compute; discriminate].
Defined.

Lemma update_fingerprint_mismatch_witness :
  update (svc := sumService) stranger primary0 50 localPublic
  = (localPublic, inl FingerprintMismatch).
Proof.
  apply (update_fingerprint_mismatch (svc := sumService) localPublic stranger primary0 50).
  vm_compute. discriminate.
Defined.

Lemma update_keyPacket_upgrade_only_witness :
  (keyPacket (fst (update (svc := sumService) fetchedNewer primary0 50 localPublic))
     ≠ keyPacket localPublic →
   tag (keyPacket localPublic) = publicSubkey
   ∧ tag (keyPacket fetchedNewer) = secretSubkey
   ∧ fingerprint (keyPacket fetchedNewer) = fingerprint (keyPacket localPublic)
   ∧ keyPacket (fst (update (svc := sumService) fetchedNewer primary0 50 localPublic))
     = keyPacket fetchedNewer)
  ∧ keyPacket (fst (update (svc := sumService) fetchedNewer primary0 50 localPublic))
    ≠ keyPacket localPublic.
Proof.
  split; [|vm_compute; discriminate].
  apply (update_keyPacket_upgrade_only (svc := sumService) localPublic fetchedNewer
           (fst (update (svc := sumService) fetchedNewer primary0 50 localPublic))
           primary0 50 (inr tt)).
  reflexivity.
Defined.

Lemma update_one_binding_per_issuer_witness :
  onePerIssuer (bindingSignatures localPublic)
  ∧ onePerIssuer
      (bindingSignatures (fst (update (svc := sumService) fetchedNewer primary0 50 localPublic)))
  ∧ bindingSignatures (fst (update (svc := sumService) fetchedNewer primary0 50 localPublic))
    = [bindingSig 8 9 123; bindingSig 7 5 123].
Proof.
  assert (onePerIssuer (bindingSignatures localPublic)) as Hone.
  { unfold onePerIssuer. simpl. apply list.NoDup_singleton. }
  split; [exact Hone|]. split; [|reflexivity].
  apply (update_one_binding_per_issuer (svc := sumService) localPublic fetchedNewer
           primary0 50 Hone).
Defined.

Lemma update_twice_witness :
  update (svc := sumService) fetchedRevoked primary0 60
    (fst (update (svc := sumService) fetchedRevoked primary0 50 localPublic))
  = (fst (update (svc := sumService) fetchedRevoked primary0 50 localPublic), inr tt)
  ∧ revocationSignatures
      (fst (update (svc := sumService) fetchedRevoked primary0 50 localPublic))
    = [revocationSig 7 30 123].
Proof.
  split; [|reflexivity].
  apply (update_twice (svc := sumService) localPublic fetchedRevoked primary0 50 60).
  - reflexivity.
  - intros s s' Hs Hs' _.
    apply list_elem_of_In in Hs, Hs'. simpl in Hs, Hs'.
    destruct Hs as [<-|[]]; destruct Hs' as [<-|[]]; reflexivity.
  - repeat constructor. simpl. lia.
Defined.


Lemma same_issuer_replaced_unverified_witness :
  verified (bindingSig 7 10 0) = false
  ∧ verifies (SignatureService := sumService) (bindingSig 7 10 0) primary0 subkeyBinding
      {| key := primary0; bind := secretSub0 |} = false
  ∧ bindingSignatures
      (fst (update (svc := sumService) fetchedNewer primary0 50 localPublic))
    = [bindingSig 8 9 123; bindingSig 7 5 123]
  ∧ bindingSignatures
      (fst (update (svc := sumService)
              (set_bindingSignatures
                 (bindingSignatures fetchedNewer ++ [bindingSig 7 10 0]) fetchedNewer)
              primary0 50 localPublic))
    = [bindingSig 8 9 123; bindingSig 7 10 0].
Proof.
  split_and!; [reflexivity|reflexivity|reflexivity|].
  destruct (same_issuer_replaced_unverified (svc := sumService)
              localPublic fetchedNewer primary0 50
              (bindingSig 7 10 0) (bindingSig 7 5 123) 1%nat) as [Hnewer _].
  - reflexivity.
  - reflexivity.
  - destruct Hnewer as [Hresult _]; [vm_compute; reflexivity|].
    rewrite Hresult. reflexivity.
Defined.

(** The second merge of [fetchedMixed] differs from the first: the later
    signature of issuer 7 fails verification and is dropped by the first
    merge; the second finds the entry the first appended for issuer 7 and
    writes the later signature over it. *)
Lemma update_twice_differs :
  hasSameFingerprintAs localPublic (inl fetchedMixed) = true
  ∧ bindingSignatures (fst (update (svc := sumService) fetchedMixed primary0 50 localPublic))
    = [bindingSig 8 4 123; bindingSig 7 5 123]
  ∧ bindingSignatures
      (fst (update (svc := sumService) fetchedMixed primary0 50
              (fst (update (svc := sumService) fetchedMixed primary0 50 localPublic))))
    = [bindingSig 8 4 123; bindingSig 7 10 0]
  ∧ fst (update (svc := sumService) fetchedMixed primary0 50
           (fst (update (svc := sumService) fetchedMixed primary0 50 localPublic)))
    ≠ fst (update (svc := sumService) fetchedMixed primary0 50 localPublic).
Proof.
  split_and!; [reflexivity|reflexivity|reflexivity|].
  vm_compute. discriminate.
Qed.


(** The scenarios of the specification, run on the model. *)

(** One binding signature, no expiration, no revocation: valid, and it never
    expires. *)
Example scenario_plain_binding :
  verify (svc := sumService)
    {| keyPacket := publicSub0; bindingSignatures := [bindingSig 7 5 123];
       revocationSignatures := [] |} primary0 4000 = inr tt
  ∧ getExpirationTime (svc := sumService)
      {| keyPacket := publicSub0; bindingSignatures := [bindingSig 7 5 123];
         revocationSignatures := [] |} primary0 4000 = Some Never.
Proof. split; reflexivity. Qed.

(** A key-level validity period of 1000 on a key created at 5: the subkey
    expires at 1005, and [verify] fails from then on. *)
Example scenario_key_expiration :
  getExpirationTime (svc := sumService) expiringLocal primary0 60 = Some (Finite 1005)
  ∧ verify (svc := sumService) expiringLocal primary0 60 = inr tt
  ∧ verify (svc := sumService) expiringLocal primary0 1005 = inl Expired.
Proof. split_and!; reflexivity. Qed.

(** A public local copy merged with a fetched secret copy that has a later
    signature of the same issuer: secret packet, later signature, one entry
    for that issuer. *)
Example scenario_merge_upgrade :
  update (svc := sumService) fetchedNewer primary0 50 localPublic
  = ({| keyPacket := secretSub0;
        bindingSignatures := [bindingSig 8 9 123; bindingSig 7 5 123];
        revocationSignatures := [] |}, inr tt).
Proof. reflexivity. Qed.

(** A valid subkey, revoked at 70: the new subkey is revoked from 70 on, the
    original still verifies. *)
Example scenario_revoke :
  ∃ subKey,
    revoke (svc := sumService) withBogusRevocation primary0
      (Some {| flag := Some (enumFlag keyCompromised);
               reasonString := Some "lost device"%string |})
      70 80 = (withBogusRevocation, inr subKey)
    ∧ verify (svc := sumService) subKey primary0 70 = inl Revoked
    ∧ verify (svc := sumService) withBogusRevocation primary0 70 = inr tt.
Proof. eexists. split_and!; reflexivity. Qed.

(** * More of the class *)

(** ** Reading a subkey *)

Section ReadingMore.
Context {svc : SignatureService}.

(** What the selection returns is in the list and is a valid candidate. *)
Lemma select_fold_Some primaryKey ty data date signatures best sig :
  foldl (λ best sig,
           if helper.isValidAsOf primaryKey ty data date sig
           then helper.laterOf best sig else best) best signatures = Some sig →
  best = Some sig
  ∨ (sig ∈ signatures ∧ helper.isValidAsOf primaryKey ty data date sig = true).
Proof.
  revert best. induction signatures as [|s rest IH]; intros best; simpl.
  - by left.
  - intros Hf. destruct (IH _ Hf) as [Hb|[Hin Hv]].
    + destruct (helper.isValidAsOf primaryKey ty data date s) eqn:Hs; [|by left].
      destruct best as [b|]; simpl in Hb.
      * destruct (created b <? created s); injection Hb as <-.
        -- right. split; [apply list_elem_of_here|done].
        -- by left.
      * injection Hb as <-. right. split; [apply list_elem_of_here|done].
    + right. split; [by apply list_elem_of_further|done].
Qed.

Lemma getLatestValidSignature_sound primaryKey ty data date signatures sig :
  helper.getLatestValidSignature signatures primaryKey ty data date = inr sig →
  sig ∈ signatures
  ∧ signatureType sig = ty
  ∧ verifies sig primaryKey ty data = true
  ∧ isExpired sig date = false.
Proof.
  unfold helper.getLatestValidSignature.
  destruct (foldl _ None signatures) as [s|] eqn:Hf; [|done].
  intros [= ->]. apply select_fold_Some in Hf as [Hf|[Hin Hv]]; [done|].
  split; [done|]. unfold helper.isValidAsOf, helper.signature_verify in Hv.
  apply andb_true_iff in Hv as [Hv He]. apply andb_true_iff in Hv as [Ht Hv].
  apply bool_decide_eq_true_1 in Ht. apply bool_decide_eq_true_1 in Hv.
  apply negb_true_iff in He.
  by destruct (verifies sig primaryKey ty data).
Qed.

Lemma getLatestValidSignature_error primaryKey ty data date signatures e :
  helper.getLatestValidSignature signatures primaryKey ty data date = inl e →
  e = NoValidBindingSignature.
Proof.
  unfold helper.getLatestValidSignature.
  destruct (foldl _ None signatures); [done|]. by intros [= <-].
Qed.

Lemma isDataRevoked_false primaryKey data revocations signature date :
  helper.isDataRevoked primaryKey subkeyRevocation data revocations signature None date
    = false
  ↔ Forall (λ rev, ¬ revokesAt primaryKey data date rev) revocations.
Proof.
  rewrite <- not_true_iff_false, isDataRevoked_true. simpl.
  rewrite <- Forall_Exists_neg. done.
Qed.

(** X1.  [getExpirationTime] answers [null] exactly when [verify] fails for want
    of a binding signature: both start with the same selection. *)
Theorem null_expiration_iff_no_binding (this : SubKey) primaryKey date :
  getExpirationTime this primaryKey date = None
  ↔ verify this primaryKey date = inl NoValidBindingSignature.
Proof.
  unfold getExpirationTime, verify.
  destruct (helper.getLatestValidSignature _ _ _ _ _) as [e|sig] eqn:Hsel.
  - apply getLatestValidSignature_error in Hsel as ->. done.
  - split; [done|].
    destruct (revoked sig || isRevoked this primaryKey (Some sig) None date); [done|].
    by destruct (helper.isDataExpired (keyPacket this) sig date).
Qed.

(** X2.  What a [verify] that returns guarantees: some binding signature of the
    list is valid at the date and not flagged revoked, no revocation
    signature of the list revokes at the date, and the date is strictly
    before the expiration time [getExpirationTime] reports. *)
Theorem verify_success_guarantees (this : SubKey) primaryKey date :
  verify this primaryKey date = inr tt →
  let data := {| key := primaryKey; bind := keyPacket this |} in
  (∃ sig, sig ∈ bindingSignatures this
          ∧ bindsAt primaryKey data date sig
          ∧ revoked sig = false)
  ∧ Forall (λ rev, ¬ revokesAt primaryKey data date rev) (revocationSignatures this)
  ∧ ∃ r, getExpirationTime this primaryKey date = Some r ∧ before date r.
Proof.
  intros Hv. cbv zeta. unfold verify, getExpirationTime in *.
  set (data := {| key := primaryKey; bind := keyPacket this |}) in *.
  destruct (helper.getLatestValidSignature _ _ _ _ _) as [e|sig] eqn:Hsel; [done|].
  destruct (revoked sig) eqn:Hflag; [done|]. simpl in Hv.
  destruct (isRevoked this primaryKey (Some sig) None date) eqn:Hrev; [done|].
  destruct (helper.isDataExpired (keyPacket this) sig date) eqn:Hexp; [done|].
  apply getLatestValidSignature_sound in Hsel as (Hin & Ht & Hver & Hne).
  split_and!.
  - exists sig. unfold bindsAt. by split_and!.
  - unfold isRevoked in Hrev. by apply isDataRevoked_false in Hrev.
  - eexists. split; [done|]. unfold helper.isDataExpired in Hexp.
    destruct (if exp_ltb _ _ then _ else _) as [t|]; simpl; [|done].
    apply Z.leb_gt in Hexp. lia.
Qed.

End ReadingMore.

(** ** Packet lists *)

Section PacketLists.

#[local] Instance SigP_inj : Inj (=) (=) SigP.
Proof. by intros s1 s2 [= ->]. Qed.

Lemma toPacketlist_layout (this : SubKey) :
  toPacketlist this
  = KeyP (keyPacket this)
    :: (SigP <$> revocationSignatures this ++ bindingSignatures this).
Proof. unfold toPacketlist, PacketList_push, PacketList_concat. by rewrite fmap_app. Qed.

(** Where a list of revocation-typed signatures ends and the others begin
    is read off the list. *)
Lemma typed_split (r1 b1 r2 b2 : list Signature) :
  Forall (λ s, signatureType s = subkeyRevocation) r1 →
  Forall (λ s, signatureType s ≠ subkeyRevocation) b1 →
  Forall (λ s, signatureType s = subkeyRevocation) r2 →
  Forall (λ s, signatureType s ≠ subkeyRevocation) b2 →
  r1 ++ b1 = r2 ++ b2 → r1 = r2 ∧ b1 = b2.
Proof.
  revert r2. induction r1 as [|x r1 IH]; intros r2 Hr1 Hb1 Hr2 Hb2 Heq.
  - destruct r2 as [|y r2]; [done|]. simpl in Heq. subst b1.
    apply list.Forall_cons in Hb1 as [Hy _]. apply list.Forall_cons in Hr2 as [Hy' _].
    done.
  - apply list.Forall_cons in Hr1 as [Hx Hr1].
    destruct r2 as [|y r2]; simpl in Heq.
    + subst b2. apply list.Forall_cons in Hb2 as [Hx' _]. done.
    + injection Heq as -> Heq. apply list.Forall_cons in Hr2 as [_ Hr2].
      destruct (IH r2) as [-> ->]; done.
Qed.

(** X4.  The packet list holds the key packet first, then the revocation
    signatures in their order, then the binding signatures in theirs, and
    nothing else.  When revocation signatures carry the revocation type and
    binding signatures do not, the packet list determines the subkey: two
    such subkeys with the same packet list are the same. *)
Theorem toPacketlist_order (a : SubKey) :
  toPacketlist a !! 0%nat = Some (KeyP (keyPacket a))
  ∧ (∀ i r, revocationSignatures a !! i = Some r →
            toPacketlist a !! S i = Some (SigP r))
  ∧ (∀ j b, bindingSignatures a !! j = Some b →
            toPacketlist a !! S (length (revocationSignatures a) + j) = Some (SigP b))
  ∧ length (toPacketlist a)
    = S (length (revocationSignatures a) + length (bindingSignatures a))
  ∧ (∀ b, wellTyped a → wellTyped b → toPacketlist a = toPacketlist b → a = b).
Proof.
  split_and!.
  - done.
  - intros i r Hi. rewrite toPacketlist_layout.
    change (((SigP <$> revocationSignatures a ++ bindingSignatures a) !! i)
            = Some (SigP r)).
    rewrite list_lookup_fmap, lookup_app_l by (by eapply lookup_lt_Some).
    by rewrite Hi.
  - intros j b Hj. rewrite toPacketlist_layout.
    change (((SigP <$> revocationSignatures a ++ bindingSignatures a)
               !! (length (revocationSignatures a) + j)%nat)
            = Some (SigP b)).
    rewrite list_lookup_fmap, lookup_app_r by lia.
    replace (length (revocationSignatures a) + j - length (revocationSignatures a))%nat
      with j by lia.
    by rewrite Hj.
  - rewrite toPacketlist_layout. simpl. by rewrite length_fmap, length_app.
  - intros b [Hra Hba] [Hrb Hbb]. rewrite !toPacketlist_layout. intros [= Hk Hs].
    apply (inj (fmap SigP)) in Hs.
    destruct (typed_split _ _ _ _ Hra Hba Hrb Hbb Hs) as [Hr Hb].
    destruct a, b; simpl in *. by subst.
Qed.

End PacketLists.

(** ** Merging, more *)

Section UpdateMore.
Context {svc : SignatureService}.

Lemma bindStep_issuers primaryKey data (L : list Signature) s :
  issuerKeyId <$> bindStep primaryKey data L s = issuerKeyId <$> L
  ∨ (issuerKeyId <$> bindStep primaryKey data L s = (issuerKeyId <$> L) ++ [issuerKeyId s]
     ∧ acceptsBinding primaryKey data s = true).
Proof.
  unfold bindStep. destruct (list_find _ L) as [[i l]|] eqn:Hf.
  - left. apply list_find_Some in Hf as (Hi & Hl & _).
    destruct (created l <? created s); [|done].
    by rewrite (issuers_insert L i l s).
  - destruct (acceptsBinding primaryKey data s); [right|by left].
    by rewrite fmap_app.
Qed.

Lemma foldl_bindStep_issuers_prefix primaryKey data source (L : list Signature) :
  (issuerKeyId <$> L)
    `prefix_of` (issuerKeyId <$> foldl (bindStep primaryKey data) L source).
Proof.
  revert L. induction source as [|s rest IH]; intros L; simpl; [done|].
  etrans; [|apply IH].
  destruct (bindStep_issuers primaryKey data L s) as [->|[-> _]];
    [done|by apply prefix_app_r].
Qed.

Lemma foldl_bindStep_new_issuer primaryKey data source (L : list Signature) k :
  k ∈ issuerKeyId <$> foldl (bindStep primaryKey data) L source →
  k ∈ issuerKeyId <$> L
  ∨ ∃ s, s ∈ source ∧ issuerKeyId s = k ∧ acceptsBinding primaryKey data s = true.
Proof.
  revert L. induction source as [|s rest IH]; intros L; simpl; [by left|].
  intros Hk. destruct (IH _ Hk) as [Hin|(s' & Hs' & Hk' & Hacc)].
  - destruct (bindStep_issuers primaryKey data L s) as [Heq|[Heq Hacc]];
      rewrite Heq in Hin; [by left|].
    apply elem_of_app in Hin as [Hin|Hin%list_elem_of_singleton]; [by left|].
    right. exists s. split_and!; [apply list_elem_of_here|done|done].
  - right. exists s'. split_and!; [by apply list_elem_of_further|done|done].
Qed.

Lemma bindStep_elements primaryKey data (L : list Signature) s e :
  e ∈ bindStep primaryKey data L s → e ∈ L ∨ e = s.
Proof.
  unfold bindStep. destruct (list_find _ L) as [[i l]|].
  - destruct (created l <? created s); [|by left].
    intros (j & Hj)%list_elem_of_lookup.
    destruct (decide (j = i)) as [->|Hne].
    + assert (i < length L)%nat as Hlt.
      { apply lookup_lt_Some in Hj. by rewrite length_insert in Hj. }
      rewrite list_lookup_insert_eq in Hj by done. right. congruence.
    + rewrite list_lookup_insert_ne in Hj by done.
      left. by eapply list_elem_of_lookup_2.
  - destruct (acceptsBinding primaryKey data s); [|by left].
    intros [?|?%list_elem_of_singleton]%elem_of_app; auto.
Qed.

Lemma foldl_bindStep_elements primaryKey data source (L : list Signature) e :
  e ∈ foldl (bindStep primaryKey data) L source → e ∈ L ∨ e ∈ source.
Proof.
  revert L. induction source as [|s rest IH]; intros L; simpl; [by left|].
  intros He. destruct (IH _ He) as [Hin|Hin]; [|right; by apply list_elem_of_further].
  destruct (bindStep_elements _ _ _ _ _ Hin) as [?| ->];
    [by left|right; apply list_elem_of_here].
Qed.

Lemma bindStep_length primaryKey data (L : list Signature) s :
  (length L ≤ length (bindStep primaryKey data L s) ≤ S (length L))%nat.
Proof.
  unfold bindStep. destruct (list_find _ L) as [[i l]|].
  - destruct (created l <? created s); rewrite ?length_insert; lia.
  - destruct (acceptsBinding primaryKey data s); rewrite ?length_app; simpl; lia.
Qed.

Lemma foldl_bindStep_length primaryKey data source (L : list Signature) :
  (length L ≤ length (foldl (bindStep primaryKey data) L source)
   ≤ length L + length source)%nat.
Proof.
  revert L. induction source as [|s rest IH]; intros L; simpl; [lia|].
  pose proof (bindStep_length primaryKey data L s).
  pose proof (IH (bindStep primaryKey data L s)). lia.
Qed.

Lemma acceptsRevocation_spec primaryKey data now rev :
  acceptsRevocation primaryKey data now rev = true ↔ revokesAt primaryKey data now rev.
Proof.
  unfold acceptsRevocation. rewrite isDataRevoked_true, Exists_cons, Exists_nil.
  unfold revokesAt. simpl. tauto.
Qed.

(** X5.  No call of [update] takes anything away: the issuers of the binding
    list stay where they are, in their order, and the revocation list stays
    as the beginning of the new one. *)
Theorem update_removes_nothing (this subKey : SubKey) primaryKey now :
  let this' := fst (update subKey primaryKey now this) in
  (issuerKeyId <$> bindingSignatures this)
    `prefix_of` (issuerKeyId <$> bindingSignatures this')
  ∧ revocationSignatures this `prefix_of` revocationSignatures this'.
Proof.
  rewrite update_total. destruct (hasSameFingerprintAs this (inl subKey)); simpl.
  - split; [apply foldl_bindStep_issuers_prefix|apply foldl_revStep_prefix].
  - done.
Qed.

(** X6.  No call of [update] invents a signature or grows a list by more than
    the source has: each signature of the new lists is one of the old list or
    of the source's list of that kind. *)
Theorem update_adds_from_source_only (this subKey : SubKey) primaryKey now :
  let this' := fst (update subKey primaryKey now this) in
  (∀ e, e ∈ bindingSignatures this' →
        e ∈ bindingSignatures this ∨ e ∈ bindingSignatures subKey)
  ∧ (∀ e, e ∈ revocationSignatures this' →
          e ∈ revocationSignatures this ∨ e ∈ revocationSignatures subKey)
  ∧ (length (bindingSignatures this')
     ≤ length (bindingSignatures this) + length (bindingSignatures subKey))%nat
  ∧ (length (revocationSignatures this')
     ≤ length (revocationSignatures this) + length (revocationSignatures subKey))%nat.
Proof.
  rewrite update_total. destruct (hasSameFingerprintAs this (inl subKey)); simpl.
  - split_and!.
    + intros e. apply foldl_bindStep_elements.
    + intros e [?|[Hin _]]%foldl_revStep_elem; [by left|by right].
    + apply foldl_bindStep_length.
    + apply foldl_revStep_length.
  - split_and!; [by left|by left|lia|lia].
Qed.

(** X7.  After a call that returns, an issuer that was not in the binding list
    is there only if the source has a signature of that issuer which is
    marked verified or verifies against the primary key and the key packet
    the target now has. *)
Theorem update_new_issuer_has_accepted_signature
    (this subKey : SubKey) primaryKey now (k : Z) :
  hasSameFingerprintAs this (inl subKey) = true →
  let this' := fst (update subKey primaryKey now this) in
  k ∈ issuerKeyId <$> bindingSignatures this' →
  k ∉ issuerKeyId <$> bindingSignatures this →
  ∃ s, s ∈ bindingSignatures subKey
       ∧ issuerKeyId s = k
       ∧ (verified s = true
          ∨ verifies s primaryKey subkeyBinding
              {| key := primaryKey; bind := keyPacket this' |} = true).
Proof.
  intros Hfp. rewrite update_run by done. simpl. intros Hk Hnew.
  apply foldl_bindStep_new_issuer in Hk as [?|(s & Hs & Hks & Hacc)]; [done|].
  exists s. split_and!; [done|done|]. unfold acceptsBinding in Hacc.
  by apply orb_true_iff in Hacc.
Qed.

(** X8.  After a call that returns, the revocation list holds exactly the old
    revocation signatures and those of the source that revoke on their own at
    the time of the merge, against the primary key and the key packet the
    target now has. *)
Theorem update_revocations_exactly (this subKey : SubKey) primaryKey now rev :
  hasSameFingerprintAs this (inl subKey) = true →
  let this' := fst (update subKey primaryKey now this) in
  rev ∈ revocationSignatures this'
  ↔ rev ∈ revocationSignatures this
    ∨ (rev ∈ revocationSignatures subKey
       ∧ revokesAt primaryKey {| key := primaryKey; bind := keyPacket this' |} now rev).
Proof.
  intros Hfp. rewrite update_run by done. simpl.
  by rewrite foldl_revStep_elem, acceptsRevocation_spec.
Qed.

End UpdateMore.

Section UpdateConsequences.
Context {svc : SignatureService}.

Lemma verify_not_ok_when_revoked (this : SubKey) primaryKey date :
  (∀ signature, isRevoked this primaryKey signature None date = true) →
  verify this primaryKey date = inl Revoked
  ∨ verify this primaryKey date = inl NoValidBindingSignature.
Proof.
  intros Hrev. unfold verify.
  destruct (helper.getLatestValidSignature _ _ _ _ _) as [e|sig] eqn:Hsel.
  - right. by apply getLatestValidSignature_error in Hsel as ->.
  - left. by rewrite Hrev, orb_true_r.
Qed.

(** X9.  A revocation signature of the source that revokes at the time of the
    merge revokes the target from then on: after the call [isRevoked]
    answers [true] at every later date, and [verify] fails, with [Revoked]
    unless no binding signature is selected. *)
Theorem update_imports_revocation (this subKey : SubKey) primaryKey now rev :
  hasSameFingerprintAs this (inl subKey) = true →
  let this' := fst (update subKey primaryKey now this) in
  rev ∈ revocationSignatures subKey →
  revokesAt primaryKey {| key := primaryKey; bind := keyPacket this' |} now rev →
  ∀ date, now ≤ date →
    (∀ signature, isRevoked this' primaryKey signature None date = true)
    ∧ (verify this' primaryKey date = inl Revoked
       ∨ verify this' primaryKey date = inl NoValidBindingSignature).
Proof.
  intros Hfp. rewrite update_run by done. cbn [fst]. intros Hin Hrev date Hdate.
  assert (∀ signature,
            isRevoked (merged this subKey primaryKey now) primaryKey signature None date
            = true) as Hall.
  { intros signature. unfold isRevoked. apply isDataRevoked_true.
    apply list.Exists_exists. exists rev. split.
    - unfold merged. cbn [revocationSignatures]. apply foldl_revStep_elem. right.
      split; [done|]. by apply acceptsRevocation_spec.
    - destruct Hrev as (Ht & Hv & Hc). simpl. split_and!; [done|done|lia]. }
  split; [done|]. by apply verify_not_ok_when_revoked.
Qed.

(** X10.  A call of [update] that keeps the key packet never lifts a revocation:
    where [isRevoked] answered [true] before, it answers [true] after. *)
Theorem update_keeps_revoked (this subKey : SubKey) primaryKey now signature k date :
  let this' := fst (update subKey primaryKey now this) in
  keyPacket this' = keyPacket this →
  isRevoked this primaryKey signature k date = true →
  isRevoked this' primaryKey signature k date = true.
Proof.
  intros this' Hkp. unfold isRevoked. rewrite Hkp, !isDataRevoked_true.
  subst this'. rewrite update_total.
  destruct (hasSameFingerprintAs this (inl subKey)); [|done].
  cbn [fst merged revocationSignatures].
  destruct (foldl_revStep_prefix primaryKey
              {| key := primaryKey; bind := upgradedPacket this subKey |} now
              (revocationSignatures subKey) (revocationSignatures this)) as [added ->].
  rewrite Exists_app. by left.
Qed.

(** X11.  A public subkey packet is replaced by the secret subkey packet of a
    source with the same fingerprint: the call returns and the target holds
    the source's packet. *)
Theorem update_upgrades_to_secret (this subKey : SubKey) primaryKey now :
  tag (keyPacket this) = publicSubkey →
  tag (keyPacket subKey) = secretSubkey →
  fingerprint (keyPacket this) = fingerprint (keyPacket subKey) →
  snd (update subKey primaryKey now this) = inr tt
  ∧ keyPacket (fst (update subKey primaryKey now this)) = keyPacket subKey.
Proof.
  intros Hpub Hsec Hfp. rewrite update_run.
  - split; [done|]. cbn [fst merged keyPacket]. unfold upgradedPacket.
    by rewrite !bool_decide_eq_true_2.
  - unfold hasSameFingerprintAs, KeyPacket_hasSameFingerprintAs.
    by apply bool_decide_eq_true_2.
Qed.

(** X12.  A packet built by the [SecretSubkeyPacket] constructor, whatever the
    parent constructor sets: as the target's packet it is kept by every
    [update]; as the source's packet it replaces a public subkey packet of
    the same fingerprint. *)
Theorem SecretSubkeyPacket_in_update
    (super : Z → KeyPacket) (date : Z) (this subKey : SubKey) primaryKey now :
  (keyPacket this = SecretSubkeyPacket super date →
   keyPacket (fst (update subKey primaryKey now this)) = keyPacket this)
  ∧ (keyPacket subKey = SecretSubkeyPacket super date →
     tag (keyPacket this) = publicSubkey →
     fingerprint (keyPacket this) = fingerprint (super date) →
     keyPacket (fst (update subKey primaryKey now this))
     = SecretSubkeyPacket super date).
Proof.
  split.
  - intros Hk. rewrite update_total.
    destruct (hasSameFingerprintAs this (inl subKey)); [|done].
    cbn [fst merged keyPacket]. unfold upgradedPacket. by rewrite Hk.
  - intros Hk Hpub Hfp. rewrite update_run.
    + cbn [fst merged keyPacket]. unfold upgradedPacket.
      rewrite (bool_decide_eq_true_2 _ Hpub). by rewrite Hk.
    + unfold hasSameFingerprintAs, KeyPacket_hasSameFingerprintAs. rewrite Hk.
      by apply bool_decide_eq_true_2.
Qed.

(** X13.  No call of [update] changes the fingerprint of the target: the
    [getFingerprint] accessor answers as before, and so does
    [hasSameFingerprintAs] for every other subkey or packet. *)
Theorem update_keeps_fingerprint (this subKey : SubKey) primaryKey now :
  let this' := fst (update subKey primaryKey now this) in
  getFingerprint this' = getFingerprint this
  ∧ ∀ other, hasSameFingerprintAs this' other = hasSameFingerprintAs this other.
Proof.
  cbv zeta.
  assert (fingerprint (keyPacket (fst (update subKey primaryKey now this)))
          = fingerprint (keyPacket this)) as Hfp.
  { rewrite update_total.
    destruct (hasSameFingerprintAs this (inl subKey)) eqn:Hsame; [|done].
    cbn [fst merged keyPacket]. unfold upgradedPacket.
    destruct (_ && _); [|done].
    unfold hasSameFingerprintAs, KeyPacket_hasSameFingerprintAs in Hsame.
    by apply bool_decide_eq_true_1 in Hsame. }
  split; [exact Hfp|].
  intros other. unfold hasSameFingerprintAs, KeyPacket_hasSameFingerprintAs.
  by rewrite Hfp.
Qed.

(** X14.  The binding check never throws and never touches the key packet, the
    revocation list or the issuers of the binding list; it answers [true] only
    for a candidate of an issuer the list does not have, marked verified or
    verifying, and then leaves the subkey as it is. *)
Theorem bindingCheck_frame primaryKey data (srcBindSig : Signature) (that : SubKey) :
  ∃ that' answer,
    bindingCheck primaryKey data srcBindSig that = (that', inr answer)
    ∧ keyPacket that' = keyPacket that
    ∧ revocationSignatures that' = revocationSignatures that
    ∧ (issuerKeyId <$> bindingSignatures that') = (issuerKeyId <$> bindingSignatures that)
    ∧ (answer = true →
       that' = that
       ∧ (issuerKeyId srcBindSig ∉ (issuerKeyId <$> bindingSignatures that))
       ∧ (verified srcBindSig = true
          ∨ verifies srcBindSig primaryKey subkeyBinding data = true)).
Proof.
  rewrite bindingCheck_run.
  destruct (list_find _ (bindingSignatures that)) as [[i l]|] eqn:Hf.
  - eexists _, false. split; [done|].
    apply list_find_Some in Hf as (Hi & Hl & _).
    destruct (created l <? created srcBindSig); split_and!; try done.
    simpl. by apply (issuers_insert _ i l).
  - eexists that, _. split_and!; try done.
    intros Hacc. split_and!; [done| |by apply orb_true_iff in Hacc].
    intros (l & Hk & Hin)%list_elem_of_fmap.
    apply list_find_None in Hf. rewrite list.Forall_forall in Hf. by apply (Hf l).
Qed.

End UpdateConsequences.

(** ** Revoking *)

Section RevokeMore.
Context {svc : SignatureService}.

Lemma fresh_same_fingerprint (this : SubKey) (revs : list Signature) :
  hasSameFingerprintAs
    (set_revocationSignatures revs (new_SubKey (keyPacket this))) (inl this) = true.
Proof.
  unfold hasSameFingerprintAs, KeyPacket_hasSameFingerprintAs. simpl.
  by apply bool_decide_eq_true_2.
Qed.

Lemma fresh_upgradedPacket (this : SubKey) (revs : list Signature) :
  upgradedPacket (set_revocationSignatures revs (new_SubKey (keyPacket this))) this
  = keyPacket this.
Proof.
  unfold upgradedPacket. simpl.
  destruct (decide (tag (keyPacket this) = publicSubkey)) as [Hpub|Hpub];
    [rewrite (bool_decide_eq_true_2 _ Hpub)|by rewrite (bool_decide_eq_false_2 _ Hpub)].
  rewrite bool_decide_eq_false_2; [done|]. by rewrite Hpub.
Qed.




(** X15.  [revoke] fails exactly when [enums.write] refuses the flag or, the
    flag written, the signer fails, and with that error; a flag that is no
    member of the enumeration makes it fail before the signer is asked.  The
    merge into the new subkey never throws. *)
Theorem revoke_failure_paths
    (this : SubKey) primaryKey reasonForRevocation date now (e : Error) :
  let reason := default {| flag := None; reasonString := None |} reasonForRevocation in
  let flagValue := default (enumFlag noReason) (flag reason) in
  (snd (revoke this primaryKey reasonForRevocation date now) = inl e
   ↔ enums_write_reasonForRevocation flagValue = inl e
     ∨ ∃ code,
         enums_write_reasonForRevocation flagValue = inr code
         ∧ createSignaturePacket {| key := primaryKey; bind := keyPacket this |}
             primaryKey
             {| prop_signatureType := subkeyRevocation;
                prop_reasonForRevocationFlag := code;
                prop_reasonForRevocationString :=
                  default EmptyString (reasonString reason) |}
             date = inl e)
  ∧ (∀ raw, flagValue = otherValue raw →
            snd (revoke this primaryKey reasonForRevocation date now)
            = inl InvalidEnumValue).
Proof.
  intros reason flagValue. split.
  - unfold revoke. fold reason flagValue.
    destruct (enums_write_reasonForRevocation flagValue) as [e'|code] eqn:Hw.
    + simpl. split; [intros [= ->]; by left|].
      intros [[= ->]|(code & [=] & _)]. done.
    + destruct (createSignaturePacket _ _ _ _) as [e'|sig] eqn:Hs.
      * simpl. split; [intros [= ->]; right; by exists code|].
        intros [[=]|(code' & [= <-] & Hs')]. congruence.
      * rewrite update_run by apply fresh_same_fingerprint. simpl.
        split; [done|]. intros [[=]|(code' & [= <-] & Hs')]. congruence.
  - intros raw Hraw. unfold revoke. fold reason flagValue. by rewrite Hraw.
Qed.

(** X16.  The subkey [revoke] returns answers the borrowed accessors as [this]
    does, has at most one binding signature per issuer, all of them binding
    signatures of [this], and at most one revocation signature more than
    [this]. *)
Theorem revoke_result_shape
    (this this0 subKey : SubKey) primaryKey reasonForRevocation date now :
  revoke this primaryKey reasonForRevocation date now = (this0, inr subKey) →
  (getKeyId subKey = getKeyId this
   ∧ getFingerprint subKey = getFingerprint this
   ∧ getCreationTime subKey = getCreationTime this
   ∧ isDecrypted subKey = isDecrypted this)
  ∧ onePerIssuer (bindingSignatures subKey)
  ∧ (∀ sig, sig ∈ bindingSignatures subKey → sig ∈ bindingSignatures this)
  ∧ (length (revocationSignatures subKey)
     ≤ S (length (revocationSignatures this)))%nat.
Proof.
  unfold revoke.
  destruct (enums_write_reasonForRevocation _) as [e'|code]; [done|].
  destruct (createSignaturePacket _ _ _ _) as [e'|sig]; [done|].
  rewrite update_run by apply fresh_same_fingerprint. intros [= _ <-].
  unfold merged. rewrite fresh_upgradedPacket.
  cbn [keyPacket bindingSignatures revocationSignatures new_SubKey
       set_revocationSignatures].
  split; [by split_and!|]. split_and!.
  - apply foldl_bindStep_onePerIssuer. unfold onePerIssuer. simpl. apply NoDup_nil_2.
  - intros s Hs. apply foldl_bindStep_elements in Hs as [Hs|Hs]; [|done].
    by apply elem_of_nil in Hs.
  - etrans; [apply foldl_revStep_length|]. simpl. lia.
Qed.


End RevokeMore.

(** ** Examples for the rest of the class *)

Lemma verify_success_guarantees_witness :
  verify (svc := sumService) expiringLocal primary0 60 = inr tt
  ∧ ∃ r, getExpirationTime (svc := sumService) expiringLocal primary0 60 = Some r
         ∧ before 60 r.
Proof.
  split; [reflexivity|].
  apply (verify_success_guarantees (svc := sumService) expiringLocal primary0 60).
  reflexivity.
Defined.

Lemma update_new_issuer_has_accepted_signature_witness :
  ∃ s, s ∈ bindingSignatures fetchedNewer
       ∧ issuerKeyId s = 7
       ∧ (verified s = true
          ∨ verifies (SignatureService := sumService) s primary0 subkeyBinding
              {| key := primary0;
                 bind := keyPacket (fst (update (svc := sumService) fetchedNewer
                                           primary0 50 localPublic)) |} = true).
Proof.
  apply (update_new_issuer_has_accepted_signature (svc := sumService)
           localPublic fetchedNewer primary0 50 7).
  - reflexivity.
  - apply list_elem_of_In. vm_compute. auto.
  - intros Hin%list_elem_of_In. vm_compute in Hin. destruct Hin as [Hin|[]].
    discriminate Hin.
Defined.

Lemma update_revocations_exactly_witness :
  revocationSig 7 30 123
    ∈ revocationSignatures
        (fst (update (svc := sumService) fetchedRevoked primary0 50 localPublic)).
Proof.
  apply (update_revocations_exactly (svc := sumService)
           localPublic fetchedRevoked primary0 50 (revocationSig 7 30 123)).
  - reflexivity.
  - right. split; [apply list_elem_of_here|].
    split_and!; [reflexivity|reflexivity|vm_compute; discriminate].
Defined.

Lemma update_imports_revocation_witness :
  verify (svc := sumService) localPublic primary0 60 = inr tt
  ∧ verify (svc := sumService)
      (fst (update (svc := sumService) fetchedRevoked primary0 50 localPublic))
      primary0 60 = inl Revoked.
Proof.
  split; [reflexivity|].
  destruct (update_imports_revocation (svc := sumService)
              localPublic fetchedRevoked primary0 50 (revocationSig 7 30 123))
    with (date := 60) as [_ [Hrev|Hnone]].
  - reflexivity.
  - apply list_elem_of_here.
  - split_and!; [reflexivity|reflexivity|vm_compute; discriminate].
  - vm_compute. discriminate.
  - exact Hrev.
  - vm_compute in Hnone. discriminate Hnone.
Defined.

Lemma update_keeps_revoked_witness :
  isRevoked (svc := sumService) revokedLocal primary0 None None 60 = true
  ∧ isRevoked (svc := sumService)
      (fst (update (svc := sumService) revokedLocal primary0 50 revokedLocal))
      primary0 None None 60 = true.
Proof.
  split; [reflexivity|].
  apply (update_keeps_revoked (svc := sumService) revokedLocal revokedLocal
           primary0 50 None None 60); reflexivity.
Defined.

Lemma update_upgrades_to_secret_witness :
  snd (update (svc := sumService) fetchedNewer primary0 50 localPublic) = inr tt
  ∧ keyPacket (fst (update (svc := sumService) fetchedNewer primary0 50 localPublic))
    = secretSub0.
Proof.
  apply (update_upgrades_to_secret (svc := sumService) localPublic fetchedNewer
           primary0 50); reflexivity.
Defined.

Lemma SecretSubkeyPacket_in_update_witness :
  keyPacket
    (fst (update (svc := sumService)
            {| keyPacket := SecretSubkeyPacket secretKeyAt 5;
               bindingSignatures := []; revocationSignatures := [] |}
            primary0 50 localPublic))
  = SecretSubkeyPacket secretKeyAt 5.
Proof.
  apply (SecretSubkeyPacket_in_update (svc := sumService) secretKeyAt 5 localPublic
           {| keyPacket := SecretSubkeyPacket secretKeyAt 5;
              bindingSignatures := []; revocationSignatures := [] |}
           primary0 50); reflexivity.
Defined.

Lemma revoke_result_shape_witness :
  ∃ subKey,
    revoke (svc := sumService) revokedLocal primary0 None 70 80 = (revokedLocal, inr subKey)
    ∧ onePerIssuer (bindingSignatures subKey)
    ∧ getFingerprint subKey = getFingerprint revokedLocal.
Proof.
  eexists. split; [reflexivity|].
  destruct (revoke_result_shape (svc := sumService) revokedLocal revokedLocal _
              primary0 None 70 80 eq_refl) as ((_ & Hfp & _) & Hone & _).
  split; [exact Hone|exact Hfp].
Defined.


(** Without the types the packet list does not tell where the revocation
    signatures end: these two subkeys have the same one. *)
Remark toPacketlist_needs_types :
  toPacketlist {| keyPacket := publicSub0; bindingSignatures := [];
                  revocationSignatures := [bindingSig 7 5 123] |}
  = toPacketlist {| keyPacket := publicSub0; bindingSignatures := [bindingSig 7 5 123];
                    revocationSignatures := [] |}.
Proof. reflexivity. Qed.
